(** * Implicit stochastic gradient descent for GLMs: the numerical core

    A shallow embedding of [implicit/src/implicit.hpp]: transfer functions,
    model families, learning-rate schedules, the estimation context
    ([Imp_Experiment]) and the functors that feed the root finder of the
    implicit update ([Get_score_coeff], [Implicit_fn]).

    Modelling conventions.
    - A C++ [double] is a real number ([R]): arithmetic is exact.  Rounding,
      overflow, infinities and NaN are outside the model.  [exp] is [exp],
      [log] is [ln] and [pow] is [Rpower]; the last two agree with the C
      functions on positive arguments only, as division does on a divisor
      other than zero.  Wherever a statement below depends on the value of
      a logarithm, a power or a quotient, its argument is in that range.
    - An [unsigned] is a natural number; the one subtraction on such a
      value, in [last_estimate], wraps around.
    - Where the sign of a result or the branch of a comparison depends on
      overflow or NaN, the code is given a second time over binary64, in
      the module [Binary64].
    - An Armadillo [mat] is a record of its two dimensions and its elements
      in column-major order, as the library stores them.  Operations that
      check sizes or bounds throw in C++; here they return [Throw].
    - A [boost::function] may be empty; calling an empty one throws
      [boost::bad_function_call]. *)

From Stdlib Require Import String Reals Lra Lia ZArith Bool Arith List.
From Stdlib Require PrimFloat.
Import ListNotations.
Open Scope R_scope.

(** ** Exceptions and the result of a call that may throw *)

Inductive exn : Type :=
| bad_function_call      (* boost::function called while empty *)
| size_mismatch          (* Armadillo: operands of incompatible sizes *)
| index_out_of_bounds.   (* Armadillo: checked element or column access *)

Inductive result (A : Type) : Type :=
| Ok (a : A)
| Throw (e : exn).
Arguments Ok {A} a.
Arguments Throw {A} e.

Definition bind {A B : Type} (c : result A) (k : A -> result B) : result B :=
  match c with
  | Ok a => k a
  | Throw e => Throw e
  end.

Notation "x <- c ;; k" := (bind c (fun x => k))
  (at level 61, c at next level, right associativity).

(** ** Lists of reals *)

Definition Rsum (l : list R) : R := fold_right Rplus 0 l.

Fixpoint zip_with (f : R -> R -> R) (l1 l2 : list R) : list R :=
  match l1, l2 with
  | a :: l1', b :: l2' => f a b :: zip_with f l1' l2'
  | _, _ => []
  end.

(** In-place store at a linear index. *)
Fixpoint upd (n : nat) (v : R) (l : list R) : list R :=
  match l, n with
  | [], _ => []
  | _ :: l', O => v :: l'
  | a :: l', S n' => a :: upd n' v l'
  end.

(** ** Armadillo matrices *)

Record mat : Type := Mat { n_rows : nat; n_cols : nat; mem : list R }.

Definition n_elem (m : mat) : nat := (n_rows m * n_cols m)%nat.

(** The storage holds exactly [n_rows * n_cols] elements. *)
Definition wf (m : mat) : Prop := length (mem m) = n_elem m.

(** [mat()] : the empty matrix. *)
Definition mat_empty : mat := Mat 0 0 [].

(** An [r] x [c] matrix given by its entries, laid out column by column. *)
Definition mat_init (r c : nat) (f : nat -> nat -> R) : mat :=
  Mat r c (flat_map (fun j => map (fun i => f i j) (seq 0 r)) (seq 0 c)).

(** A column vector and a row vector with the given elements. *)
Definition colvec (l : list R) : mat := Mat (length l) 1 l.
Definition rowvec (l : list R) : mat := Mat 1 (length l) l.

(** [m.at(i, j)] : element access without bounds check. *)
Definition at_ (m : mat) (i j : nat) : R := nth (i + j * n_rows m) (mem m) 0.

(** [m.at(i, j) = v]. *)
Definition set_at (m : mat) (i j : nat) (v : R) : mat :=
  Mat (n_rows m) (n_cols m) (upd (i + j * n_rows m) v (mem m)).

(** [m(i)] : checked access by linear index. *)
Definition elem (m : mat) (i : nat) : result R :=
  if (i <? n_elem m)%nat then Ok (nth i (mem m) 0) else Throw index_out_of_bounds.

(** [m(i) = v] : checked store by linear index. *)
Definition set_elem (m : mat) (i : nat) (v : R) : result mat :=
  if (i <? n_elem m)%nat
  then Ok (Mat (n_rows m) (n_cols m) (upd i v (mem m)))
  else Throw index_out_of_bounds.

(** [mat(r, c, fill::eye)]. *)
Definition eye (r c : nat) : mat :=
  mat_init r c (fun i j => if (i =? j)%nat then 1 else 0).

(** [m * k] and [k * m] for a scalar [k]. *)
Definition scale_r (m : mat) (k : R) : mat :=
  Mat (n_rows m) (n_cols m) (map (fun v => v * k) (mem m)).
Definition scale_l (k : R) (m : mat) : mat :=
  Mat (n_rows m) (n_cols m) (map (fun v => k * v) (mem m)).

Definition same_size (a b : mat) : bool :=
  ((n_rows a =? n_rows b) && (n_cols a =? n_cols b))%nat%bool.

(** Element-wise operations: [a + b], [a - b], [a % b]. *)
Definition elementwise (f : R -> R -> R) (a b : mat) : result mat :=
  if same_size a b
  then Ok (Mat (n_rows a) (n_cols a) (zip_with f (mem a) (mem b)))
  else Throw size_mismatch.

Definition mat_add : mat -> mat -> result mat := elementwise Rplus.
Definition mat_sub : mat -> mat -> result mat := elementwise Rminus.
Definition schur : mat -> mat -> result mat := elementwise Rmult.

(** [a * b] : matrix product. *)
Definition mat_mul (a b : mat) : result mat :=
  if (n_cols a =? n_rows b)%nat
  then Ok (mat_init (n_rows a) (n_cols b)
             (fun i j => Rsum (map (fun k => at_ a i k * at_ b k j)
                                   (seq 0 (n_cols a)))))
  else Throw size_mismatch.

(** [m.t()]. *)
Definition trans (m : mat) : mat :=
  mat_init (n_cols m) (n_rows m) (fun i j => at_ m j i).

(** [as_scalar(m)] : the single element of a 1 x 1 matrix. *)
Definition as_scalar (m : mat) : result R :=
  if (n_elem m =? 1)%nat then Ok (nth 0 (mem m) 0) else Throw size_mismatch.

(** [dot(a, b)] : both operands are read as vectors of [n_elem] elements. *)
Definition dot (a b : mat) : result R :=
  if (n_elem a =? n_elem b)%nat
  then Ok (Rsum (zip_with Rmult (mem a) (mem b)))
  else Throw size_mismatch.

(** [diagmat(m)] : a vector becomes the diagonal of a square matrix; for a
    matrix every element off the main diagonal is set to zero. *)
Definition diagmat (m : mat) : mat :=
  if ((n_rows m =? 1) || (n_cols m =? 1))%nat%bool
  then mat_init (n_elem m) (n_elem m)
         (fun i j => if (i =? j)%nat then nth i (mem m) 0 else 0)
  else mat_init (n_rows m) (n_cols m)
         (fun i j => if (i =? j)%nat then at_ m i j else 0).

(** [vec(m)] : a column vector built from a matrix expression; the
    expression has to have one column (or be empty). *)
Definition vec_of (m : mat) : result mat :=
  if ((n_rows m =? 0) && (n_cols m =? 0))%nat%bool then Ok (Mat 0 1 [])
  else if (n_cols m =? 1)%nat then Ok m
  else Throw size_mismatch.

(** [vec(n)] : a column vector of [n] elements that are not initialised;
    [junk] stands for whatever the storage holds. *)
Definition vec_uninit (junk : nat -> R) (n : nat) : mat :=
  mat_init n 1 (fun i _ => junk i).

(** [sum(v)] for a vector [v]. *)
Definition sum (v : mat) : R := Rsum (mem v).

(** [m.col(k)] : checked column access. *)
Definition col (m : mat) (k : nat) : result mat :=
  if (k <? n_cols m)%nat
  then Ok (mat_init (n_rows m) 1 (fun i _ => at_ m i k))
  else Throw index_out_of_bounds.

(** A counted loop [for (i = 0; i < n; ++i) body] over a state that the
    body rewrites and that may throw. *)
Definition for_loop {St : Type} (n : nat) (body : St -> nat -> result St)
  (s : St) : result St :=
  fold_left (fun acc i => s' <- acc ;; body s' i) (seq 0 n) (Ok s).

(** ** Data abstractions *)

Record Imp_DataPoint : Type := DataPoint { x : mat; y : R }.

Record Imp_Dataset : Type := Dataset { X : mat; Y : mat }.

Record Imp_OnlineOutput : Type := OnlineOutput { estimates : mat }.

(** [Imp_OnlineOutput()] : the estimates are a default-constructed matrix. *)
Definition Imp_OnlineOutput_default : Imp_OnlineOutput := OnlineOutput mat_empty.

(** [Imp_OnlineOutput(data)] : an [X.n_cols] x [X.n_rows] matrix whose
    elements are not initialised ([junk]). *)
Definition Imp_OnlineOutput_of (junk : nat -> nat -> R) (data : Imp_Dataset)
  : Imp_OnlineOutput :=
  OnlineOutput (mat_init (n_cols (X data)) (n_rows (X data)) junk).

Section Uword.

(** Armadillo's [uword] is an unsigned integer of [uword_bits] bits (32 or
    64, by configuration); its subtraction wraps around. *)
Variable uword_bits : Z.

Definition uword_sub (a b : Z) : Z := ((a - b) mod 2 ^ uword_bits)%Z.

(** [estimates.col(estimates.n_cols - 1)]. *)
Definition last_estimate (o : Imp_OnlineOutput) : result mat :=
  col (estimates o)
      (Z.to_nat (uword_sub (Z.of_nat (n_cols (estimates o))) 1)).

End Uword.

(** ** Transfer functions

    The scalar overloads, which are the ones the experiment binds.
    [Imp_Identity_Transfer::link] has no return statement and no caller;
    it has no counterpart here. *)

Module Imp_Identity_Transfer.
Definition transfer (u : R) : R := u.
Definition first_derivative (u : R) : R := 1.
Definition second_derivative (u : R) : R := 0.
End Imp_Identity_Transfer.

Module Imp_Exp_Transfer.
Definition transfer (u : R) : R := exp u.
Definition first_derivative (u : R) : R := exp u.
Definition second_derivative (u : R) : R := exp u.
End Imp_Exp_Transfer.

Module Imp_Logistic_Transfer.
Definition sigmoid (u : R) : R := 1 / (1 + exp (- u)).
Definition transfer (u : R) : R := sigmoid u.
Definition first_derivative (u : R) : R :=
  let sig := sigmoid u in sig * (1 - sig).
Definition second_derivative (u : R) : R :=
  let sig := sigmoid u in 2 * sig ^ 3 - 3 * sig ^ 2 + 2 * sig.
End Imp_Logistic_Transfer.

(** ** Learning-rate schedules *)

(** [boost::function<mat (const mat&, const Imp_DataPoint&)>], possibly empty. *)
Definition score_func_type : Type := option (mat -> Imp_DataPoint -> result mat).

Definition call_score_func (f : score_func_type) (theta_old : mat)
  (data_pt : Imp_DataPoint) : result mat :=
  match f with
  | Some g => g theta_old data_pt
  | None => Throw bad_function_call
  end.

Module Imp_Unidim_Learn_Rate.
Definition learning_rate (theta_old : mat) (data_pt : Imp_DataPoint)
  (t p : nat) (gamma alpha c scale : R) : mat :=
  let lr := scale * gamma * Rpower (1 + alpha * gamma * INR t) (- c) in
  scale_r (eye p p) lr.
End Imp_Unidim_Learn_Rate.

Module Imp_Pxdim_Learn_Rate.
(** [mat Idiag(p, p, fill::eye); Idiag = Idiag + diagmat(Gi * Gi.t());] *)
Definition pre_inversion (p : nat) (Gi : mat) : result mat :=
  GGt <- mat_mul Gi (trans Gi) ;;
  mat_add (eye p p) (diagmat GGt).

(** The body of the loop over the diagonal; [abs] is the absolute value of
    a [double]. *)
Definition invert_entry (Idiag : mat) (i : nat) : mat :=
  if Rgt_dec (Rabs (at_ Idiag i i)) 1e-8
  then set_at Idiag i i (1 / at_ Idiag i i)
  else Idiag.

Definition learning_rate (theta_old : mat) (data_pt : Imp_DataPoint)
  (t p : nat) (score_func : score_func_type) : result mat :=
  Gi <- call_score_func score_func theta_old data_pt ;;
  Idiag <- pre_inversion p Gi ;;
  Ok (fold_left invert_entry (seq 0 p) Idiag).
End Imp_Pxdim_Learn_Rate.

(** ** Model families *)

Module Imp_Gaussian.
Definition family : string := "gaussian".
Definition variance (u : R) : R := 1.
Definition deviance (y mu wt : mat) : result R :=
  d1 <- mat_sub y mu ;;
  d2 <- mat_sub y mu ;;
  sq <- schur d1 d2 ;;
  w <- schur wt sq ;;
  v <- vec_of w ;;
  Ok (sum v).
End Imp_Gaussian.

Module Imp_Poisson.
Definition family : string := "poisson".
Definition variance (u : R) : R := u.

Definition deviance_body (y mu wt r : mat) (i : nat) : result mat :=
  yi <- elem y i ;;
  if Rgt_dec yi 0 then
    wi <- elem wt i ;;
    mui <- elem mu i ;;
    set_elem r i (wi * (yi * ln (yi / mui) - (yi - mui)))
  else Ok r.

Definition deviance (y mu wt : mat) : result R :=
  mw <- schur mu wt ;;
  r0 <- vec_of mw ;;
  r <- for_loop (n_elem r0) (deviance_body y mu wt) r0 ;;
  Ok (sum (scale_l 2 r)).
End Imp_Poisson.

Module Imp_Binomial.
Definition family : string := "binomial".
Definition variance (u : R) : R := u * (1 - u).

Definition y_log_y (y mu : R) : R :=
  if Req_dec_T y 0 then 0 else y * ln (y / mu).

Definition deviance_body (y mu wt r : mat) (i : nat) : result mat :=
  wi <- elem wt i ;;
  yi <- elem y i ;;
  mui <- elem mu i ;;
  set_elem r i (2 * wi * (y_log_y yi mui + y_log_y (1 - yi) (1 - mui))).

Definition deviance (junk : nat -> R) (y mu wt : mat) : result R :=
  let r0 := vec_uninit junk (n_elem y) in
  r <- for_loop (n_elem r0) (deviance_body y mu wt) r0 ;;
  Ok (sum r).
End Imp_Binomial.

(** ** The estimation context *)

(** [boost::function<double (double)>], possibly empty. *)
Definition uni_func_type : Type := option (R -> R).

(** [boost::function<mat (const mat&, const Imp_DataPoint&, unsigned,
    unsigned)>].  The two closures that the experiment ever stores are kept
    by what they bind: the four parameters of the uniform schedule, or the
    experiment itself ([this]) through its score function. *)
Inductive learning_rate_type : Type :=
| lr_empty
| lr_unidim (gamma alpha c scale : R)
| lr_pxdim_this.

Record Imp_Experiment : Type := Experiment {
  p : nat;
  n_iters : nat;
  model_name : string;
  transfer_ : uni_func_type;
  transfer_first_deriv_ : uni_func_type;
  transfer_second_deriv_ : uni_func_type;
  lr_ : learning_rate_type
}.

(** [Imp_Experiment(transfer_name)].  The constructor initialises neither
    [p] nor [n_iters]; [p0] and [n_iters0] are the values they happen to
    hold. *)
Definition Imp_Experiment_new (p0 n_iters0 : nat) (transfer_name : string)
  : Imp_Experiment :=
  if String.eqb transfer_name "identity" then
    Experiment p0 n_iters0 ""
      (Some Imp_Identity_Transfer.transfer)
      (Some Imp_Identity_Transfer.first_derivative)
      (Some Imp_Identity_Transfer.second_derivative) lr_empty
  else if String.eqb transfer_name "exp" then
    Experiment p0 n_iters0 ""
      (Some Imp_Exp_Transfer.transfer)
      (Some Imp_Exp_Transfer.first_derivative)
      (Some Imp_Exp_Transfer.second_derivative) lr_empty
  else if String.eqb transfer_name "logistic" then
    Experiment p0 n_iters0 ""
      (Some Imp_Logistic_Transfer.transfer)
      (Some Imp_Logistic_Transfer.first_derivative)
      (Some Imp_Logistic_Transfer.second_derivative) lr_empty
  else
    Experiment p0 n_iters0 "" None None None lr_empty.

Definition init_uni_dim_learning_rate (e : Imp_Experiment)
  (gamma alpha c scale : R) : Imp_Experiment :=
  Experiment (p e) (n_iters e) (model_name e) (transfer_ e)
    (transfer_first_deriv_ e) (transfer_second_deriv_ e)
    (lr_unidim gamma alpha c scale).

Definition init_px_dim_learning_rate (e : Imp_Experiment) : Imp_Experiment :=
  Experiment (p e) (n_iters e) (model_name e) (transfer_ e)
    (transfer_first_deriv_ e) (transfer_second_deriv_ e) lr_pxdim_this.

Definition call_uni_func (f : uni_func_type) (u : R) : result R :=
  match f with
  | Some g => Ok (g u)
  | None => Throw bad_function_call
  end.

Definition h_transfer (e : Imp_Experiment) (u : R) : result R :=
  call_uni_func (transfer_ e) u.

Definition h_first_derivative (e : Imp_Experiment) (u : R) : result R :=
  call_uni_func (transfer_first_deriv_ e) u.

Definition h_second_derivative (e : Imp_Experiment) (u : R) : result R :=
  call_uni_func (transfer_second_deriv_ e) u.

Definition score_function (e : Imp_Experiment) (theta_old : mat)
  (datapoint : Imp_DataPoint) : result mat :=
  xt <- mat_mul (x datapoint) theta_old ;;
  u <- as_scalar xt ;;
  h <- h_transfer e u ;;
  Ok (trans (scale_l (y datapoint - h) (x datapoint))).

Definition learning_rate (e : Imp_Experiment) (theta_old : mat)
  (data_pt : Imp_DataPoint) (t : nat) : result mat :=
  match lr_ e with
  | lr_empty => Throw bad_function_call
  | lr_unidim gamma alpha c scale =>
      Ok (Imp_Unidim_Learn_Rate.learning_rate theta_old data_pt t (p e)
            gamma alpha c scale)
  | lr_pxdim_this =>
      Imp_Pxdim_Learn_Rate.learning_rate theta_old data_pt t (p e)
        (Some (score_function e))
  end.

Record Imp_Size : Type := Size { nsamples : nat; Size_p : nat }.

(** ** The functors of the implicit update *)

Record Get_score_coeff : Type := Build_score_coeff {
  experiment : Imp_Experiment;
  datapoint : Imp_DataPoint;
  theta_old : mat;
  normx : R
}.

(** [Get_score_coeff::operator()]. *)
Definition Get_score_coeff_call (g : Get_score_coeff) (ksi : R) : result R :=
  d <- dot (theta_old g) (x (datapoint g)) ;;
  h <- h_transfer (experiment g) (d + normx g * ksi) ;;
  Ok (y (datapoint g) - h).

Definition Get_score_coeff_first_derivative (g : Get_score_coeff) (ksi : R)
  : result R :=
  d <- dot (theta_old g) (x (datapoint g)) ;;
  h1 <- h_first_derivative (experiment g) (d + normx g * ksi) ;;
  Ok (h1 * normx g).

Definition Get_score_coeff_second_derivative (g : Get_score_coeff) (ksi : R)
  : result R :=
  d <- dot (theta_old g) (x (datapoint g)) ;;
  h2 <- h_second_derivative (experiment g) (d + normx g * ksi) ;;
  Ok (h2 * normx g * normx g).

Definition tuple_type : Type := (R * R * R)%type.

Record Implicit_fn : Type := Build_implicit_fn {
  at_rate : R;              (* the member [at], a keyword here *)
  g : Get_score_coeff
}.

(** [Implicit_fn::operator()]. *)
Definition Implicit_fn_call (f : Implicit_fn) (u : R) : result tuple_type :=
  gu <- Get_score_coeff_call (g f) u ;;
  let value := u - at_rate f * gu in
  g1 <- Get_score_coeff_first_derivative (g f) u ;;
  let first := 1 + at_rate f * g1 in
  g2 <- Get_score_coeff_second_derivative (g f) u ;;
  let second := at_rate f * g2 in
  Ok (value, first, second).

(** ** The specification's formulas *)

(** The inner product of two vectors given by their elements. *)
Definition dotl (a b : list R) : R := Rsum (zip_with Rmult a b).

(** The Euclidean norm of a vector. *)
Definition norm2 (a : list R) : R := sqrt (dotl a a).

(** The sum of [f 0], ..., [f (n - 1)]. *)
Definition Rsum_upto (n : nat) (f : nat -> R) : R := Rsum (map f (seq 0 n)).

(** [m] is an [r] x [c] matrix, stored in full, whose entry (i, j) is
    [f i j]. *)
Definition has_entries (m : mat) (r c : nat) (f : nat -> nat -> R) : Prop :=
  n_rows m = r /\ n_cols m = c /\ length (mem m) = (r * c)%nat /\
  forall i j, (i < r)%nat -> (j < c)%nat -> at_ m i j = f i j.

Module Spec.
(** g, g' and g'' of the implicit update, for a transfer [h] with
    derivatives [h1] and [h2], the inner product [d] of theta_old and x,
    and the coefficient [nx] of the offset. *)
Definition g (h : R -> R) (yv d nx ksi : R) : R := yv - h (d + nx * ksi).
Definition g' (h1 : R -> R) (d nx ksi : R) : R := h1 (d + nx * ksi) * nx.
Definition g'' (h2 : R -> R) (d nx ksi : R) : R := h2 (d + nx * ksi) * nx ^ 2.

(** The closed form of the implicit step as the specification gives it:
    a (y - theta.x) / (1 + a ||x||^2). *)
Definition ksi_star (a yv : R) (theta xv : list R) : R :=
  a * (yv - dotl theta xv) / (1 + a * (norm2 xv) ^ 2).

(** The uniform rate scale * gamma * (1 + alpha gamma t)^(-c). *)
Definition uniform_rate (gamma alpha c scale : R) (t : nat) : R :=
  scale * gamma * Rpower (1 + alpha * gamma * INR t) (- c).

(** An entry of magnitude above 1e-8 is replaced by its reciprocal, any
    other entry is kept. *)
Definition invert_above_threshold (d : R) : R :=
  if Rgt_dec (Rabs d) 1e-8 then 1 / d else d.

(** One observation's part of the Poisson deviance, the term y log(y/mu)
    read as 0 when y <= 0. *)
Definition poisson_term (yv mu w : R) : R :=
  2 * w * ((if Rle_dec yv 0 then 0 else yv * ln (yv / mu)) - (yv - mu)).
End Spec.

(** ** Further parts of the source *)

(** [m(i, j)] and [m(i, j) = v] : checked access by row and column. *)
Definition elem2 (m : mat) (i j : nat) : result R :=
  if ((i <? n_rows m) && (j <? n_cols m))%nat%bool then Ok (at_ m i j)
  else Throw index_out_of_bounds.

Definition set_elem2 (m : mat) (i j : nat) (v : R) : result mat :=
  if ((i <? n_rows m) && (j <? n_cols m))%nat%bool then Ok (set_at m i j v)
  else Throw index_out_of_bounds.

(** The overloads of [transfer] on a matrix.  The Identity one returns its
    argument; the other two copy it and rewrite the elements [(i, 0)]. *)
Definition Imp_Identity_Transfer_transfer_mat (u : mat) : mat := u.

Definition Imp_Exp_Transfer_transfer_mat (u : mat) : result mat :=
  for_loop (n_rows u)
    (fun res i =>
       v <- elem2 u i 0 ;; set_elem2 res i 0 (Imp_Exp_Transfer.transfer v))
    u.

Definition Imp_Logistic_Transfer_transfer_mat (u : mat) : result mat :=
  for_loop (n_rows u)
    (fun res i =>
       v <- elem2 u i 0 ;; set_elem2 res i 0 (Imp_Logistic_Transfer.transfer v))
    u.

(** The components of the triple of [Implicit_fn], as functions of the
    query point (0 where the call throws). *)
Definition value_of (r : result tuple_type) : R :=
  match r with Ok (v, _, _) => v | Throw _ => 0 end.
Definition first_of (r : result tuple_type) : R :=
  match r with Ok (_, f1, _) => f1 | Throw _ => 0 end.
Definition second_of (r : result tuple_type) : R :=
  match r with Ok (_, _, f2) => f2 | Throw _ => 0 end.

(** The value of a call of [Get_score_coeff], as a function of the query
    point (0 where the call throws). *)
Definition scalar_of (r : result R) : R :=
  match r with Ok v => v | Throw _ => 0 end.

(** The experiments a host can build: the constructor, then any number of
    schedule selections and of assignments to the public members [p],
    [n_iters] and [model_name]. *)
Inductive configured : Imp_Experiment -> Prop :=
| configured_new (p0 n_iters0 : nat) (transfer_name : string) :
    configured (Imp_Experiment_new p0 n_iters0 transfer_name)
| configured_uni (e : Imp_Experiment) (gamma alpha c scale : R) :
    configured e ->
    configured (init_uni_dim_learning_rate e gamma alpha c scale)
| configured_px (e : Imp_Experiment) :
    configured e -> configured (init_px_dim_learning_rate e)
| configured_members (e : Imp_Experiment) (p' n_iters' : nat) (name' : string) :
    configured e ->
    configured (Experiment p' n_iters' name' (transfer_ e)
                  (transfer_first_deriv_ e) (transfer_second_deriv_ e) (lr_ e)).

(** ** The score function and the diagonal schedule over binary64

    Rocq's primitive floats are IEEE 754 binary64 numbers with rounding to
    nearest even, as a C++ [double] is.  The definitions below are those of
    the sections above with [float] for [R]; [score_function] takes the
    transfer binding of the experiment, the one member it reads.  A matrix
    product accumulates its sums from 0 in index order. *)

Module Binary64.
Import PrimFloat.

Record mat : Type := Mat { n_rows : nat; n_cols : nat; mem : list float }.

Definition n_elem (m : mat) : nat := (n_rows m * n_cols m)%nat.

Definition mat_init (r c : nat) (f : nat -> nat -> float) : mat :=
  Mat r c (flat_map (fun j => map (fun i => f i j) (seq 0 r)) (seq 0 c)).

Definition colvec (l : list float) : mat := Mat (length l) 1 l.
Definition rowvec (l : list float) : mat := Mat 1 (length l) l.

Definition at_ (m : mat) (i j : nat) : float :=
  nth (i + j * n_rows m) (mem m) 0%float.

Fixpoint upd (n : nat) (v : float) (l : list float) : list float :=
  match l, n with
  | [], _ => []
  | _ :: l', O => v :: l'
  | a :: l', S n' => a :: upd n' v l'
  end.

Definition set_at (m : mat) (i j : nat) (v : float) : mat :=
  Mat (n_rows m) (n_cols m) (upd (i + j * n_rows m) v (mem m)).

Definition eye (r c : nat) : mat :=
  mat_init r c (fun i j => if (i =? j)%nat then 1%float else 0%float).

Definition scale_l (k : float) (m : mat) : mat :=
  Mat (n_rows m) (n_cols m) (map (fun v => (k * v)%float) (mem m)).

Fixpoint zip_add (l1 l2 : list float) : list float :=
  match l1, l2 with
  | a :: l1', b :: l2' => (a + b)%float :: zip_add l1' l2'
  | _, _ => []
  end.

Definition mat_add (a b : mat) : result mat :=
  if ((n_rows a =? n_rows b) && (n_cols a =? n_cols b))%nat%bool
  then Ok (Mat (n_rows a) (n_cols a) (zip_add (mem a) (mem b)))
  else Throw size_mismatch.

Definition fsum (l : list float) : float :=
  fold_left (fun acc v => (acc + v)%float) l 0%float.

Definition mat_mul (a b : mat) : result mat :=
  if (n_cols a =? n_rows b)%nat
  then Ok (mat_init (n_rows a) (n_cols b)
             (fun i j => fsum (map (fun k => (at_ a i k * at_ b k j)%float)
                                   (seq 0 (n_cols a)))))
  else Throw size_mismatch.

Definition trans (m : mat) : mat :=
  mat_init (n_cols m) (n_rows m) (fun i j => at_ m j i).

Definition as_scalar (m : mat) : result float :=
  if (n_elem m =? 1)%nat then Ok (nth 0 (mem m) 0%float)
  else Throw size_mismatch.

Definition diagmat (m : mat) : mat :=
  if ((n_rows m =? 1) || (n_cols m =? 1))%nat%bool
  then mat_init (n_elem m) (n_elem m)
         (fun i j => if (i =? j)%nat then nth i (mem m) 0%float else 0%float)
  else mat_init (n_rows m) (n_cols m)
         (fun i j => if (i =? j)%nat then at_ m i j else 0%float).

Record Imp_DataPoint : Type := DataPoint { x : mat; y : float }.

(** [Imp_Identity_Transfer::transfer(double)]. *)
Definition Imp_Identity_Transfer_transfer (u : float) : float := u.

(** [Imp_Experiment::score_function], for the transfer binding
    [transfer_]. *)
Definition score_function (transfer_ : option (float -> float))
  (theta_old : mat) (datapoint : Imp_DataPoint) : result mat :=
  xt <- mat_mul (x datapoint) theta_old ;;
  u <- as_scalar xt ;;
  h <- match transfer_ with
       | Some f => Ok (f u)
       | None => Throw bad_function_call
       end ;;
  Ok (trans (scale_l (y datapoint - h)%float (x datapoint))).

(** [Imp_Pxdim_Learn_Rate::learning_rate]. *)
Definition pre_inversion (p : nat) (Gi : mat) : result mat :=
  GGt <- mat_mul Gi (trans Gi) ;;
  mat_add (eye p p) (diagmat GGt).

(** The test of the loop: [abs(Idiag.at(i, i)) > 1e-8]. *)
#[warnings="-inexact-float"]
Definition above_threshold (d : float) : bool := ltb 1e-8%float (abs d).

Definition invert_entry (Idiag : mat) (i : nat) : mat :=
  if above_threshold (at_ Idiag i i)
  then set_at Idiag i i (1 / at_ Idiag i i)%float
  else Idiag.

Definition learning_rate (theta_old : mat) (data_pt : Imp_DataPoint)
  (t p : nat) (score_func : option (mat -> Imp_DataPoint -> result mat))
  : result mat :=
  Gi <- match score_func with
        | Some f => f theta_old data_pt
        | None => Throw bad_function_call
        end ;;
  Idiag <- pre_inversion p Gi ;;
  Ok (fold_left invert_entry (seq 0 p) Idiag).

End Binary64.

(** ** Lists: stores, element-wise maps, sums *)

Lemma length_upd (n : nat) (v : R) (l : list R) : length (upd n v l) = length l.
Proof.
  revert n; induction l as [|a l IH]; intros [|n]; simpl; auto.
Qed.

Lemma nth_upd_same (n : nat) (v d : R) (l : list R) :
  (n < length l)%nat -> nth n (upd n v l) d = v.
Proof.
  revert n; induction l as [|a l IH]; intros [|n] H; simpl in *; try lia; auto.
  apply IH; lia.
Qed.

Lemma nth_upd_other (n m : nat) (v d : R) (l : list R) :
  m <> n -> nth m (upd n v l) d = nth m l d.
Proof.
  revert n m; induction l as [|a l IH]; intros [|n] [|m] H; simpl; auto;
    solve [contradiction | apply IH; lia].
Qed.

Lemma length_zip_with (f : R -> R -> R) (l1 l2 : list R) :
  length l1 = length l2 -> length (zip_with f l1 l2) = length l1.
Proof.
  revert l2; induction l1 as [|a l1 IH]; intros [|b l2] H; simpl in *;
    try discriminate; auto.
Qed.

Lemma nth_zip_with (f : R -> R -> R) (l1 l2 : list R) (i : nat) (d : R) :
  length l1 = length l2 -> (i < length l1)%nat ->
  nth i (zip_with f l1 l2) d = f (nth i l1 d) (nth i l2 d).
Proof.
  revert l2 i; induction l1 as [|a l1 IH]; intros [|b l2] [|i] H Hi;
    simpl in *; try discriminate; try lia; auto.
  apply IH; lia.
Qed.

Lemma map_nth_seq (l : list R) (d : R) :
  map (fun i => nth i l d) (seq 0 (length l)) = l.
Proof.
  induction l as [|a l IH]; simpl; auto.
  rewrite <- seq_shift, map_map. simpl. now rewrite IH.
Qed.

Lemma Rsum_zero (l : list R) : (forall v, In v l -> v = 0) -> Rsum l = 0.
Proof.
  induction l as [|a l IH]; simpl; intros H; auto.
  rewrite (H a), IH by auto. lra.
Qed.

Lemma Rsum_map_ext (A : Type) (f g : A -> R) (l : list A) :
  (forall a, In a l -> f a = g a) -> Rsum (map f l) = Rsum (map g l).
Proof.
  intros H. f_equal. apply map_ext_in, H.
Qed.

Lemma dotl_self_nonneg (a : list R) : 0 <= dotl a a.
Proof.
  unfold dotl. induction a as [|v a IH]; simpl; [lra | nra].
Qed.

Lemma norm2_sqr (a : list R) : norm2 a ^ 2 = dotl a a.
Proof.
  unfold norm2. simpl. rewrite Rmult_1_r. apply sqrt_sqrt, dotl_self_nonneg.
Qed.

(** ** The result monad *)

Lemma bind_Ok (A B : Type) (a : A) (k : A -> result B) : bind (Ok a) k = k a.
Proof. reflexivity. Qed.

(** ** C2: an unrecognised transfer name *)

(** C2.  For a transfer name other than "identity", "exp" and "logistic"
    the constructor (a total function: it signals nothing) leaves the
    transfer binding empty, and every later call of [h_transfer] throws
    [bad_function_call] instead of returning a value. *)
Theorem unknown_transfer_leaves_binding_unset :
  forall (p0 n_iters0 : nat) (transfer_name : string),
    transfer_name <> "identity"%string ->
    transfer_name <> "exp"%string ->
    transfer_name <> "logistic"%string ->
    let e := Imp_Experiment_new p0 n_iters0 transfer_name in
    transfer_ e = None /\
    forall u : R, h_transfer e u = Throw bad_function_call.
Proof.
  intros p0 n0 name H1 H2 H3 e.
  assert (He : transfer_ e = None).
  { unfold e, Imp_Experiment_new.
    apply String.eqb_neq in H1, H2, H3. now rewrite H1, H2, H3. }
  split; [exact He|].
  intros u. unfold h_transfer. now rewrite He.
Qed.

Lemma unknown_transfer_leaves_binding_unset_witness :
  transfer_ (Imp_Experiment_new 2 10 "probit") = None /\
  forall u : R, h_transfer (Imp_Experiment_new 2 10 "probit") u
                = Throw bad_function_call.
Proof.
  apply (unknown_transfer_leaves_binding_unset 2 10 "probit");
    intros H; discriminate H.
Defined.

(** ** The functors of the implicit update, with the transfer bound *)

Lemma Implicit_fn_call_bound (e : Imp_Experiment) (h h1 h2 : R -> R)
  (dp : Imp_DataPoint) (theta : mat) (nx a ksi : R) :
  transfer_ e = Some h ->
  transfer_first_deriv_ e = Some h1 ->
  transfer_second_deriv_ e = Some h2 ->
  n_elem theta = n_elem (x dp) ->
  let u := dotl (mem theta) (mem (x dp)) + nx * ksi in
  Implicit_fn_call (Build_implicit_fn a (Build_score_coeff e dp theta nx)) ksi
  = Ok (ksi - a * (y dp - h u), 1 + a * (h1 u * nx), a * (h2 u * nx * nx)).
Proof.
  intros Hh Hh1 Hh2 Hn u.
  unfold Implicit_fn_call, Get_score_coeff_call,
    Get_score_coeff_first_derivative, Get_score_coeff_second_derivative,
    h_transfer, h_first_derivative, h_second_derivative, dot.
  simpl. rewrite Hh, Hh1, Hh2.
  apply Nat.eqb_eq in Hn. rewrite Hn. reflexivity.
Qed.

Lemma n_elem_colvec_rowvec (a b : list R) :
  length a = length b -> n_elem (colvec a) = n_elem (rowvec b).
Proof. unfold n_elem; simpl; lia. Qed.

(** ** C3: the triple handed to the root finder *)

(** C3.  With the transfer and its two derivatives bound to h, h' and h'',
    and theta_old and x holding the same number of elements, [Implicit_fn]
    at ksi returns exactly (ksi - at g(ksi), 1 + at g'(ksi), at g''(ksi))
    for g(ksi) = y - h(theta_old.x + normx ksi),
    g'(ksi) = h'(theta_old.x + normx ksi) normx and
    g''(ksi) = h''(theta_old.x + normx ksi) normx^2. *)
Theorem Implicit_fn_triple :
  forall (e : Imp_Experiment) (h h1 h2 : R -> R) (dp : Imp_DataPoint)
         (theta : mat) (nx a ksi : R),
    transfer_ e = Some h ->
    transfer_first_deriv_ e = Some h1 ->
    transfer_second_deriv_ e = Some h2 ->
    n_elem theta = n_elem (x dp) ->
    let d := dotl (mem theta) (mem (x dp)) in
    Implicit_fn_call (Build_implicit_fn a (Build_score_coeff e dp theta nx)) ksi
    = Ok (ksi - a * Spec.g h (y dp) d nx ksi,
          1 + a * Spec.g' h1 d nx ksi,
          a * Spec.g'' h2 d nx ksi).
Proof.
  intros e h h1 h2 dp theta nx a ksi Hh Hh1 Hh2 Hn d.
  rewrite (Implicit_fn_call_bound e h h1 h2) by assumption.
  unfold Spec.g, Spec.g', Spec.g'', d.
  do 2 f_equal. ring.
Qed.

Lemma Implicit_fn_triple_witness :
  Implicit_fn_call
    (Build_implicit_fn (1 / 2)
       (Build_score_coeff (Imp_Experiment_new 2 10 "logistic")
          (DataPoint (rowvec [1; 2]) 1) (colvec [0; 0]) 5)) 0
  = Ok (0 - 1 / 2 * Spec.g Imp_Logistic_Transfer.transfer 1
                      (dotl [0; 0] [1; 2]) 5 0,
        1 + 1 / 2 * Spec.g' Imp_Logistic_Transfer.first_derivative
                      (dotl [0; 0] [1; 2]) 5 0,
        1 / 2 * Spec.g'' Imp_Logistic_Transfer.second_derivative
                      (dotl [0; 0] [1; 2]) 5 0).
Proof.
  apply (Implicit_fn_triple (Imp_Experiment_new 2 10 "logistic")
           Imp_Logistic_Transfer.transfer
           Imp_Logistic_Transfer.first_derivative
           Imp_Logistic_Transfer.second_derivative
           (DataPoint (rowvec [1; 2]) 1) (colvec [0; 0]) 5 (1 / 2) 0);
    reflexivity.
Defined.

(** ** C1: the implicit step for the Identity transfer *)

(** C1 (amended).  For the Identity transfer, a rate a and an offset
    coefficient normx with 1 + a normx <> 0, the value component of
    [Implicit_fn] vanishes at ksi* = a (y - theta.x) / (1 + a normx) and
    nowhere else; the triple there is (0, 1 + a normx, 0).  When normx is
    the squared norm x.x, ksi* is the specification's
    a (y - theta.x) / (1 + a ||x||^2). *)
Theorem implicit_identity_closed_form :
  forall (p0 n_iters0 : nat) (theta xv : list R) (yv a nx : R),
    length theta = length xv ->
    1 + a * nx <> 0 ->
    let f := Build_implicit_fn a
               (Build_score_coeff (Imp_Experiment_new p0 n_iters0 "identity")
                  (DataPoint (rowvec xv) yv) (colvec theta) nx) in
    let ksi_star := a * (yv - dotl theta xv) / (1 + a * nx) in
    Implicit_fn_call f ksi_star = Ok (0, 1 + a * nx, 0) /\
    (forall ksi v f1 f2,
        Implicit_fn_call f ksi = Ok (v, f1, f2) -> (v = 0 <-> ksi = ksi_star)) /\
    (nx = dotl xv xv -> ksi_star = Spec.ksi_star a yv theta xv).
Proof.
  intros p0 n0 theta xv yv a nx Hlen Hnz f ksi_star.
  assert (Hcall : forall ksi,
             Implicit_fn_call f ksi
             = Ok (ksi - a * (yv - (dotl theta xv + nx * ksi)),
                   1 + a * (1 * nx), a * (0 * nx * nx))).
  { intros ksi. unfold f.
    apply (Implicit_fn_call_bound _ Imp_Identity_Transfer.transfer
             Imp_Identity_Transfer.first_derivative
             Imp_Identity_Transfer.second_derivative);
      try reflexivity.
    now apply n_elem_colvec_rowvec. }
  repeat split.
  - rewrite Hcall. unfold ksi_star. do 2 f_equal; [f_equal|]; field; assumption.
  - intros Hv. rewrite Hcall in H. injection H as Hval _ _.
    subst v. unfold ksi_star.
    apply (Rmult_eq_reg_r (1 + a * nx)); [|assumption].
    field_simplify; [|assumption]. lra.
  - intros Hk. rewrite Hcall in H. injection H as Hval _ _.
    subst v ksi. unfold ksi_star. field. assumption.
  - intros ->. unfold ksi_star, Spec.ksi_star. now rewrite norm2_sqr.
Qed.

(** The specification's example: theta = [0,0], x = [1,2], y = 3, a = 0.1
    and normx = x.x = 5 give ksi* = 0.2. *)
Lemma implicit_identity_closed_form_witness :
  Implicit_fn_call
    (Build_implicit_fn (1 / 10)
       (Build_score_coeff (Imp_Experiment_new 2 10 "identity")
          (DataPoint (rowvec [1; 2]) 3) (colvec [0; 0]) 5)) (2 / 10)
  = Ok (0, 1 + 1 / 10 * 5, 0) /\
  Spec.ksi_star (1 / 10) 3 [0; 0] [1; 2] = 2 / 10.
Proof.
  assert (Hnz : 1 + 1 / 10 * 5 <> 0) by lra.
  assert (Hx : 5 = dotl [1; 2] [1; 2]) by (unfold dotl; simpl; lra).
  assert (Hk : 1 / 10 * (3 - dotl [0; 0] [1; 2]) / (1 + 1 / 10 * 5) = 2 / 10)
    by (unfold dotl; simpl; lra).
  destruct (implicit_identity_closed_form 2 10 [0; 0] [1; 2] 3 (1 / 10) 5
              eq_refl Hnz) as [H1 [_ H3]].
  rewrite Hk in H1, H3. split; [exact H1 | symmetry; exact (H3 Hx)].
Defined.

(** C1 as stated fails: with the coefficient of the offset equal to the
    norm ||x|| = sqrt 5 of x = [1,2], the value component at the
    specification's ksi* = 0.2 is not zero. *)
Lemma implicit_identity_norm_counterexample :
  exists v f1 f2 : R,
    Implicit_fn_call
      (Build_implicit_fn (1 / 10)
         (Build_score_coeff (Imp_Experiment_new 2 10 "identity")
            (DataPoint (rowvec [1; 2]) 3) (colvec [0; 0]) (norm2 [1; 2])))
      (Spec.ksi_star (1 / 10) 3 [0; 0] [1; 2])
    = Ok (v, f1, f2) /\ v <> 0.
Proof.
  rewrite (Implicit_fn_call_bound _ Imp_Identity_Transfer.transfer
             Imp_Identity_Transfer.first_derivative
             Imp_Identity_Transfer.second_derivative) by reflexivity.
  do 3 eexists. split; [reflexivity|].
  unfold Spec.ksi_star, Imp_Identity_Transfer.transfer.
  rewrite norm2_sqr.
  pose proof (norm2_sqr [1; 2]) as Hs.
  set (s := norm2 [1; 2]) in *.
  unfold dotl in *. simpl in *. intros H. nra.
Qed.

(** ** Matrices: entries of the constructions *)

Lemma nth_map_seq (f : nat -> R) (n i : nat) (d : R) :
  (i < n)%nat -> nth i (map f (seq 0 n)) d = f i.
Proof.
  intros Hi.
  rewrite (nth_indep _ d (f 0%nat)) by now rewrite length_map, length_seq.
  rewrite map_nth, seq_nth by assumption. reflexivity.
Qed.

Lemma length_columns (r : nat) (f : nat -> nat -> R) (c s : nat) :
  length (flat_map (fun j => map (fun i => f i j) (seq 0 r)) (seq s c))
  = (r * c)%nat.
Proof.
  revert s; induction c as [|c IH]; intros s; simpl; [lia|].
  rewrite length_app, length_map, length_seq, IH. lia.
Qed.

Lemma nth_columns (r : nat) (f : nat -> nat -> R) (c s i j : nat) :
  (i < r)%nat -> (j < c)%nat ->
  nth (i + j * r)
      (flat_map (fun j => map (fun i => f i j) (seq 0 r)) (seq s c)) 0
  = f i (s + j)%nat.
Proof.
  intros Hi. revert s j; induction c as [|c IH]; intros s j Hj; [lia|].
  simpl. destruct j as [|j].
  - replace (i + 0 * r)%nat with i by lia.
    replace (s + 0)%nat with s by lia.
    rewrite app_nth1 by (rewrite length_map, length_seq; lia).
    exact (nth_map_seq (fun i0 => f i0 s) r i 0 Hi).
  - rewrite app_nth2 by (rewrite length_map, length_seq; simpl; lia).
    rewrite length_map, length_seq.
    replace (i + S j * r - r)%nat with (i + j * r)%nat by (simpl; lia).
    rewrite IH by lia. f_equal. lia.
Qed.

Lemma wf_init (r c : nat) (f : nat -> nat -> R) : wf (mat_init r c f).
Proof. unfold wf, n_elem. simpl. apply length_columns. Qed.

Lemma at_init (r c : nat) (f : nat -> nat -> R) (i j : nat) :
  (i < r)%nat -> (j < c)%nat -> at_ (mat_init r c f) i j = f i j.
Proof.
  intros Hi Hj. unfold at_. simpl. now rewrite nth_columns.
Qed.

Lemma mem_init_col (r : nat) (f : nat -> nat -> R) :
  mem (mat_init r 1 f) = map (fun i => f i 0%nat) (seq 0 r).
Proof. simpl. apply app_nil_r. Qed.

Lemma at_scale_r (m : mat) (k : R) (i j : nat) :
  (i + j * n_rows m < length (mem m))%nat ->
  at_ (scale_r m k) i j = at_ m i j * k.
Proof.
  intros H. unfold at_. simpl.
  rewrite (nth_indep _ 0 (0 * k)) by now rewrite length_map.
  now rewrite (map_nth (fun v => v * k)).
Qed.

Lemma index_in_range (r c i j : nat) :
  (i < r)%nat -> (j < c)%nat -> (i + j * r < r * c)%nat.
Proof. intros Hi Hj. nia. Qed.

Lemma index_inj (r i j i0 j0 : nat) :
  (i < r)%nat -> (i0 < r)%nat ->
  (i + j * r = i0 + j0 * r)%nat -> i = i0 /\ j = j0.
Proof.
  intros Hi Hi0 H.
  assert (Hj : j = j0).
  { destruct (Nat.lt_trichotomy j j0) as [Hlt|[Heq|Hgt]]; [|exact Heq|].
    - assert ((j + 1) * r <= j0 * r)%nat by (apply Nat.mul_le_mono_r; lia). lia.
    - assert ((j0 + 1) * r <= j * r)%nat by (apply Nat.mul_le_mono_r; lia). lia. }
  subst j0. split; [lia | reflexivity].
Qed.

Lemma at_eye (n i j : nat) :
  (i < n)%nat -> (j < n)%nat ->
  at_ (eye n n) i j = if (i =? j)%nat then 1 else 0.
Proof. intros Hi Hj. unfold eye. now rewrite at_init. Qed.

(** ** C10: the last estimate *)

(** C10.  [last_estimate] returns the final column of the estimates only
    when there is at least one column (and the column count fits a uword).
    With zero columns, as after default construction, the index
    [n_cols - 1] wraps around to the largest uword, and the checked column
    access is out of bounds. *)
Theorem last_estimate_needs_a_column :
  forall (uword_bits : Z) (o : Imp_OnlineOutput),
    (0 < uword_bits)%Z ->
    let n := n_cols (estimates o) in
    ((1 <= n)%nat -> (Z.of_nat n < 2 ^ uword_bits)%Z ->
     exists c : mat,
       last_estimate uword_bits o = Ok c /\
       n_rows c = n_rows (estimates o) /\ n_cols c = 1%nat /\
       forall i, (i < n_rows c)%nat ->
                 at_ c i 0 = at_ (estimates o) i (n - 1)) /\
    (n = 0%nat ->
     uword_sub uword_bits (Z.of_nat n) 1 = (2 ^ uword_bits - 1)%Z /\
     last_estimate uword_bits o = Throw index_out_of_bounds).
Proof.
  intros w o Hw n. split.
  - intros Hn Hfit.
    unfold last_estimate, uword_sub. fold n.
    rewrite Z.mod_small by lia.
    replace (Z.to_nat (Z.of_nat n - 1)) with (n - 1)%nat by lia.
    unfold col. fold n.
    assert (Hlt : (n - 1 <? n)%nat = true) by (apply Nat.ltb_lt; lia).
    rewrite Hlt. eexists. split; [reflexivity|].
    split; [reflexivity|]. split; [reflexivity|].
    intros i Hi. simpl in Hi. rewrite at_init by lia. reflexivity.
  - intros Hn.
    assert (Hpow : (0 < 2 ^ w)%Z) by (apply Z.pow_pos_nonneg; lia).
    assert (Hsub : uword_sub w (Z.of_nat n) 1 = (2 ^ w - 1)%Z).
    { unfold uword_sub. rewrite Hn. simpl.
      replace (-1)%Z with (2 ^ w - 1 + -1 * 2 ^ w)%Z by lia.
      rewrite Z.mod_add by lia. apply Z.mod_small. lia. }
    split; [exact Hsub|].
    unfold last_estimate, col. fold n. rewrite Hn.
    destruct (_ <? 0)%nat eqn:E; [|reflexivity].
    apply Nat.ltb_lt in E. lia.
Qed.

Lemma last_estimate_needs_a_column_witness :
  (exists c : mat,
      last_estimate 64 (OnlineOutput (Mat 2 2 [1; 2; 3; 4])) = Ok c /\
      at_ c 0 0 = 3 /\ at_ c 1 0 = 4) /\
  last_estimate 64 Imp_OnlineOutput_default = Throw index_out_of_bounds.
Proof.
  split.
  - destruct (last_estimate_needs_a_column 64
                (OnlineOutput (Mat 2 2 [1; 2; 3; 4])) eq_refl)
      as [H _].
    destruct (H (le_S _ _ (le_n 1)) eq_refl) as [c [Hc [Hr [_ Hat]]]].
    exists c. split; [exact Hc|].
    simpl in Hr. rewrite Hr in Hat.
    split; [exact (Hat 0%nat (le_S _ _ (le_n 1))) | exact (Hat 1%nat (le_n 2))].
  - destruct (last_estimate_needs_a_column 64 Imp_OnlineOutput_default eq_refl)
      as [_ H].
    exact (proj2 (H eq_refl)).
Defined.

(** ** C7: the uniform schedule *)

Lemma Rpower_base_one (e : R) : Rpower 1 e = 1.
Proof. unfold Rpower. now rewrite ln_1, Rmult_0_r, exp_0. Qed.

Lemma at_unidim (theta : mat) (dp : Imp_DataPoint) (t p0 i j : nat)
  (gamma alpha c scale : R) :
  (i < p0)%nat -> (j < p0)%nat ->
  at_ (Imp_Unidim_Learn_Rate.learning_rate theta dp t p0 gamma alpha c scale)
      i j
  = if (i =? j)%nat then Spec.uniform_rate gamma alpha c scale t else 0.
Proof.
  intros Hi Hj. unfold Imp_Unidim_Learn_Rate.learning_rate.
  rewrite at_scale_r.
  - rewrite at_eye by assumption. unfold Spec.uniform_rate.
    destruct (i =? j)%nat; ring.
  - unfold eye. rewrite (wf_init p0 p0). unfold n_elem. simpl.
    now apply index_in_range.
Qed.

Lemma uniform_rate_antitone (gamma alpha c scale : R) (t1 t2 : nat) :
  0 < alpha -> 0 < c -> 0 <= gamma -> 0 <= scale -> (t1 <= t2)%nat ->
  Spec.uniform_rate gamma alpha c scale t2
  <= Spec.uniform_rate gamma alpha c scale t1.
Proof.
  intros Ha Hc Hg Hs Ht. unfold Spec.uniform_rate.
  apply le_INR in Ht.
  pose proof (pos_INR t1) as H1.
  assert (Hag : 0 <= alpha * gamma) by (apply Rmult_le_pos; lra).
  assert (Hb1 : 1 <= 1 + alpha * gamma * INR t1).
  { pose proof (Rmult_le_pos _ _ Hag H1). lra. }
  assert (Hb : 1 + alpha * gamma * INR t1 <= 1 + alpha * gamma * INR t2).
  { pose proof (Rmult_le_compat_l _ _ _ Hag Ht). lra. }
  rewrite !Rpower_Ropp.
  apply Rmult_le_compat_l; [apply Rmult_le_pos; lra|].
  apply Rinv_le_contravar.
  - unfold Rpower. apply exp_pos.
  - apply Rle_Rpower_l; lra.
Qed.

(** C7 (amended).  For alpha > 0, c > 0 and, in addition, gamma >= 0 and
    scale >= 0, the uniform schedule returns the p x p matrix
    scale gamma (1 + alpha gamma t)^(-c) I_p; its entries do not increase
    with t; at t = 0 it is scale gamma I_p. *)
Theorem uniform_schedule_rate_antitone :
  forall (theta : mat) (dp : Imp_DataPoint) (gamma alpha c scale : R),
    0 < alpha -> 0 < c -> 0 <= gamma -> 0 <= scale ->
    let lr := fun t p0 =>
      Imp_Unidim_Learn_Rate.learning_rate theta dp t p0 gamma alpha c scale in
    (forall t p0,
        n_rows (lr t p0) = p0 /\ n_cols (lr t p0) = p0 /\
        forall i j, (i < p0)%nat -> (j < p0)%nat ->
          at_ (lr t p0) i j
          = if (i =? j)%nat
            then scale * gamma * Rpower (1 + alpha * gamma * INR t) (- c)
            else 0) /\
    (forall t1 t2 p0 i j,
        (t1 <= t2)%nat -> (i < p0)%nat -> (j < p0)%nat ->
        at_ (lr t2 p0) i j <= at_ (lr t1 p0) i j) /\
    (forall p0, lr 0%nat p0 = scale_r (eye p0 p0) (scale * gamma)).
Proof.
  intros theta dp gamma alpha c scale Ha Hc Hg Hs lr. repeat split.
  - intros i j Hi Hj. unfold lr. now rewrite at_unidim.
  - intros t1 t2 p0 i j Ht Hi Hj. unfold lr. rewrite !at_unidim by assumption.
    destruct (i =? j)%nat; [|lra].
    now apply uniform_rate_antitone.
  - intros p0. unfold lr, Imp_Unidim_Learn_Rate.learning_rate. f_equal.
    simpl INR. rewrite Rmult_0_r, Rplus_0_r, Rpower_base_one. ring.
Qed.

Lemma uniform_schedule_rate_antitone_witness :
  at_ (Imp_Unidim_Learn_Rate.learning_rate (colvec [0; 0])
         (DataPoint (rowvec [1; 2]) 3) 7 2 1 1 1 1) 0 0
  <= at_ (Imp_Unidim_Learn_Rate.learning_rate (colvec [0; 0])
            (DataPoint (rowvec [1; 2]) 3) 4 2 1 1 1 1) 0 0.
Proof.
  refine (proj1 (proj2 (uniform_schedule_rate_antitone (colvec [0; 0])
            (DataPoint (rowvec [1; 2]) 3) 1 1 1 1 _ _ _ _))
            4%nat 7%nat 2%nat 0%nat 0%nat _ _ _); try lra; lia.
Defined.

(** C7 as stated fails: with alpha = c = gamma = 1 and scale = -1 the rate
    is -1 at t = 0 and -1/2 at t = 1, so it increases. *)
Lemma uniform_schedule_negative_scale_counterexample :
  0 < 1 /\ 0 < 1 /\
  at_ (Imp_Unidim_Learn_Rate.learning_rate (colvec [0]) (DataPoint (rowvec [1]) 0)
         0 1 1 1 1 (-1)) 0 0
  < at_ (Imp_Unidim_Learn_Rate.learning_rate (colvec [0]) (DataPoint (rowvec [1]) 0)
           1 1 1 1 1 (-1)) 0 0.
Proof.
  split; [lra|]. split; [lra|].
  rewrite !at_unidim by lia. simpl Nat.eqb. cbv iota.
  unfold Spec.uniform_rate. simpl INR.
  replace (1 + 1 * 1 * 0) with 1 by ring.
  replace (1 + 1 * 1 * 1) with 2 by ring.
  rewrite Rpower_base_one, Rpower_Ropp, Rpower_1 by lra. lra.
Qed.

(** ** C4: the score function *)

Lemma as_scalar_init (f : nat -> nat -> R) :
  as_scalar (mat_init 1 1 f) = Ok (f 0%nat 0%nat).
Proof. reflexivity. Qed.

Lemma Rsum_nth_dotl (a b : list R) :
  length a = length b ->
  Rsum (map (fun k => nth k a 0 * nth k b 0) (seq 0 (length a))) = dotl a b.
Proof.
  unfold dotl. revert b; induction a as [|u a IH]; intros [|v b] H;
    simpl in *; try discriminate; auto.
  rewrite <- seq_shift, map_map. simpl. rewrite IH by lia. reflexivity.
Qed.

Lemma trans_row (l : list R) :
  trans (Mat 1 (length l) l) = Mat (length l) 1 l.
Proof.
  unfold trans. cbn [n_rows n_cols]. unfold mat_init. f_equal.
  cbn [seq flat_map]. rewrite app_nil_r.
  rewrite <- (map_nth_seq l 0) at 2.
  apply map_ext. intros i. unfold at_. cbn [n_rows mem].
  f_equal. lia.
Qed.

Lemma mat_mul_row_col (a b : list R) :
  length a = length b ->
  mat_mul (rowvec a) (colvec b) = Ok (mat_init 1 1 (fun _ _ => dotl a b)).
Proof.
  intros H. unfold mat_mul. cbn [rowvec colvec n_rows n_cols].
  rewrite H, Nat.eqb_refl. f_equal. unfold mat_init. f_equal.
  cbn [seq flat_map map]. do 2 f_equal.
  rewrite <- H, <- Rsum_nth_dotl by assumption.
  apply Rsum_map_ext. intros k _. unfold at_.
  cbn [rowvec colvec n_rows mem].
  f_equal; f_equal; lia.
Qed.

Lemma score_function_bound (e : Imp_Experiment) (h : R -> R)
  (theta xv : list R) (yv : R) :
  transfer_ e = Some h ->
  length theta = length xv ->
  score_function e (colvec theta) (DataPoint (rowvec xv) yv)
  = Ok (colvec (map (fun xi => (yv - h (dotl xv theta)) * xi) xv)).
Proof.
  intros Hh Hlen. unfold score_function. cbn [x y].
  rewrite mat_mul_row_col by auto. rewrite bind_Ok, as_scalar_init, bind_Ok.
  unfold h_transfer. rewrite Hh. cbn [call_uni_func bind]. f_equal.
  unfold scale_l, rowvec, colvec. cbn [n_rows n_cols mem].
  rewrite !length_map.
  rewrite <- (length_map (fun v => (yv - h (dotl xv theta)) * v) xv) at 1 2.
  apply trans_row.
Qed.

(** C4.  With the transfer bound to h, and theta_old (p x 1) and x (1 x p)
    of the same dimension p, [score_function] returns the p x 1 vector
    (y - h(x.theta_old)) x^t.  The function is pure: it has no access to
    its arguments other than reading them. *)
Theorem score_function_formula :
  forall (e : Imp_Experiment) (h : R -> R) (theta xv : list R) (yv : R),
    transfer_ e = Some h ->
    length theta = length xv ->
    exists s : mat,
      score_function e (colvec theta) (DataPoint (rowvec xv) yv) = Ok s /\
      n_rows s = length xv /\ n_cols s = 1%nat /\
      mem s = map (fun xi => (yv - h (dotl xv theta)) * xi) xv.
Proof.
  intros e h theta xv yv Hh Hlen.
  rewrite (score_function_bound e h) by assumption.
  eexists. split; [reflexivity|].
  unfold colvec. cbn [n_rows n_cols mem]. rewrite length_map. auto.
Qed.

Lemma score_function_formula_witness :
  exists s : mat,
    score_function (Imp_Experiment_new 2 10 "exp") (colvec [0; 0])
      (DataPoint (rowvec [1; 2]) 3) = Ok s /\
    n_rows s = 2%nat /\ n_cols s = 1%nat /\
    mem s = map (fun xi => (3 - exp (dotl [1; 2] [0; 0])) * xi) [1; 2].
Proof.
  exact (score_function_formula (Imp_Experiment_new 2 10 "exp")
           Imp_Exp_Transfer.transfer [0; 0] [1; 2] 3 eq_refl eq_refl).
Defined.

(** ** Loops that rewrite a vector element by element *)

Lemma upd_nth_id (i : nat) (l : list R) (d : R) : upd i (nth i l d) l = l.
Proof.
  revert i; induction l as [|a l IH]; intros [|i]; simpl; auto.
  now rewrite IH.
Qed.

Lemma mat_eta (m : mat) : Mat (n_rows m) (n_cols m) (mem m) = m.
Proof. now destruct m. Qed.

Lemma upd_map_seq (G : nat -> R) (n k : nat) (v : R) :
  upd k v (map G (seq 0 n))
  = map (fun i => if (i =? k)%nat then v else G i) (seq 0 n).
Proof.
  apply (nth_ext _ _ 0 0).
  - now rewrite length_upd, !length_map.
  - intros j Hj. rewrite length_upd, length_map, length_seq in Hj.
    rewrite (nth_map_seq _ n j 0 Hj).
    destruct (Nat.eqb_spec j k) as [->|Hne].
    + apply nth_upd_same. now rewrite length_map, length_seq.
    + rewrite nth_upd_other by assumption. now apply nth_map_seq.
Qed.

Lemma for_loop_prefix (n : nat) (body : mat -> nat -> result mat)
  (F : nat -> R -> R) (r0 : mat) :
  length (mem r0) = n ->
  (forall r i, (i < n)%nat ->
      n_rows r = n_rows r0 -> n_cols r = n_cols r0 -> length (mem r) = n ->
      body r i = Ok (Mat (n_rows r) (n_cols r)
                         (upd i (F i (nth i (mem r) 0)) (mem r)))) ->
  forall k, (k <= n)%nat ->
    fold_left (fun acc i => s' <- acc ;; body s' i) (seq 0 k) (Ok r0)
    = Ok (Mat (n_rows r0) (n_cols r0)
            (map (fun i => if (i <? k)%nat then F i (nth i (mem r0) 0)
                           else nth i (mem r0) 0) (seq 0 n))).
Proof.
  intros Hlen Hbody. induction k as [|k IH]; intros Hk.
  - simpl. f_equal. rewrite <- Hlen, map_nth_seq. now rewrite mat_eta.
  - rewrite seq_S, fold_left_app, IH by lia. simpl.
    rewrite Hbody; try reflexivity; try lia;
      [|cbn [mem]; now rewrite length_map, length_seq].
    cbn [n_rows n_cols mem]. do 2 f_equal.
    rewrite upd_map_seq. apply map_ext_in. intros i Hi.
    apply in_seq in Hi.
    rewrite (nth_map_seq _ n k 0) by lia.
    rewrite Nat.ltb_irrefl.
    destruct (Nat.eqb_spec i k) as [->|Hne].
    + replace (k <? S k)%nat with true by (symmetry; apply Nat.ltb_lt; lia).
      reflexivity.
    + destruct (Nat.ltb_spec i k), (Nat.ltb_spec i (S k)); auto; lia.
Qed.

Lemma for_loop_pointwise (n : nat) (body : mat -> nat -> result mat)
  (F : nat -> R -> R) (r0 : mat) :
  length (mem r0) = n ->
  (forall r i, (i < n)%nat ->
      n_rows r = n_rows r0 -> n_cols r = n_cols r0 -> length (mem r) = n ->
      body r i = Ok (Mat (n_rows r) (n_cols r)
                         (upd i (F i (nth i (mem r) 0)) (mem r)))) ->
  for_loop n body r0
  = Ok (Mat (n_rows r0) (n_cols r0)
          (map (fun i => F i (nth i (mem r0) 0)) (seq 0 n))).
Proof.
  intros Hlen Hbody. unfold for_loop.
  rewrite (for_loop_prefix n body F r0 Hlen Hbody n) by lia.
  do 2 f_equal. apply map_ext_in. intros i Hi. apply in_seq in Hi.
  destruct (Nat.ltb_spec i n); auto; lia.
Qed.

Lemma elem_colvec (l : list R) (i : nat) :
  (i < length l)%nat -> elem (colvec l) i = Ok (nth i l 0).
Proof.
  intros Hi. unfold elem, n_elem. cbn [colvec n_rows n_cols mem].
  rewrite Nat.mul_1_r. apply Nat.ltb_lt in Hi. now rewrite Hi.
Qed.

Lemma set_elem_col (r : mat) (i : nat) (v : R) :
  n_cols r = 1%nat -> (i < n_rows r)%nat ->
  set_elem r i v = Ok (Mat (n_rows r) (n_cols r) (upd i v (mem r))).
Proof.
  intros Hc Hi. unfold set_elem, n_elem. rewrite Hc, Nat.mul_1_r.
  apply Nat.ltb_lt in Hi. now rewrite Hi.
Qed.

Lemma Rsum_scale (k : R) (l : list R) :
  Rsum (map (fun v => k * v) l) = k * Rsum l.
Proof. induction l as [|a l IH]; simpl; [ring | rewrite IH; ring]. Qed.

(** ** The model families on column vectors *)

Lemma elementwise_colvec (f : R -> R -> R) (a b : list R) :
  length b = length a ->
  elementwise f (colvec a) (colvec b)
  = Ok (Mat (length a) 1 (zip_with f a b)).
Proof.
  intros H. unfold elementwise, same_size. cbn [colvec n_rows n_cols mem].
  now rewrite H, !Nat.eqb_refl.
Qed.

Lemma vec_of_col (n : nat) (l : list R) : vec_of (Mat n 1 l) = Ok (Mat n 1 l).
Proof.
  unfold vec_of. cbn [n_rows n_cols]. cbn [Nat.eqb].
  now rewrite andb_false_r.
Qed.

(** What the Poisson deviance computes, observation by observation. *)
Lemma poisson_deviance_eq (ys mus ws : list R) :
  length mus = length ys -> length ws = length ys ->
  Imp_Poisson.deviance (colvec ys) (colvec mus) (colvec ws)
  = Ok (Rsum_upto (length ys) (fun i =>
          let yi := nth i ys 0 in
          let mui := nth i mus 0 in
          let wi := nth i ws 0 in
          2 * (if Rgt_dec yi 0
               then wi * (yi * ln (yi / mui) - (yi - mui))
               else mui * wi))).
Proof.
  intros Hmu Hw. unfold Imp_Poisson.deviance, schur.
  rewrite elementwise_colvec by congruence.
  rewrite bind_Ok, vec_of_col, bind_Ok.
  unfold n_elem. cbn [n_rows n_cols]. rewrite Nat.mul_1_r, Hmu.
  rewrite (for_loop_pointwise (length ys) _
             (fun i old =>
                if Rgt_dec (nth i ys 0) 0
                then nth i ws 0
                     * (nth i ys 0 * ln (nth i ys 0 / nth i mus 0)
                        - (nth i ys 0 - nth i mus 0))
                else old)).
  - rewrite bind_Ok. f_equal. unfold sum, scale_l, Rsum_upto.
    cbn [mem]. rewrite map_map. apply Rsum_map_ext.
    intros i Hi. apply in_seq in Hi. cbv zeta.
    rewrite nth_zip_with by lia. reflexivity.
  - cbn [mem]. rewrite length_zip_with; congruence.
  - intros r i Hi Hr Hc Hlen. cbn [n_rows n_cols] in Hr, Hc.
    unfold Imp_Poisson.deviance_body.
    rewrite elem_colvec, bind_Ok by lia.
    destruct (Rgt_dec (nth i ys 0) 0).
    + repeat (rewrite elem_colvec by lia; rewrite bind_Ok; cbv beta).
      apply set_elem_col; lia.
    + now rewrite upd_nth_id, mat_eta.
Qed.

(** What the Binomial deviance computes, observation by observation. *)
Lemma binomial_deviance_eq (junk : nat -> R) (ys mus ws : list R) :
  length mus = length ys -> length ws = length ys ->
  Imp_Binomial.deviance junk (colvec ys) (colvec mus) (colvec ws)
  = Ok (Rsum_upto (length ys) (fun i =>
          2 * nth i ws 0
          * (Imp_Binomial.y_log_y (nth i ys 0) (nth i mus 0)
             + Imp_Binomial.y_log_y (1 - nth i ys 0) (1 - nth i mus 0)))).
Proof.
  intros Hmu Hw. unfold Imp_Binomial.deviance, vec_uninit.
  unfold n_elem. cbn [colvec n_rows n_cols mat_init]. rewrite !Nat.mul_1_r.
  rewrite (for_loop_pointwise (length ys) _
             (fun i _ =>
                2 * nth i ws 0
                * (Imp_Binomial.y_log_y (nth i ys 0) (nth i mus 0)
                   + Imp_Binomial.y_log_y (1 - nth i ys 0) (1 - nth i mus 0)))).
  - rewrite bind_Ok. reflexivity.
  - etransitivity; [apply wf_init|]. unfold n_elem. cbn [mat_init n_rows n_cols].
    lia.
  - intros r i Hi Hr Hc Hlen. unfold mat_init in Hr, Hc.
    cbn [n_rows n_cols] in Hr, Hc.
    unfold Imp_Binomial.deviance_body.
    repeat (rewrite elem_colvec by lia; rewrite bind_Ok; cbv beta).
    apply set_elem_col; lia.
Qed.

(** What the Gaussian deviance computes. *)
Lemma gaussian_deviance_eq (ys mus ws : list R) :
  length mus = length ys -> length ws = length ys ->
  Imp_Gaussian.deviance (colvec ys) (colvec mus) (colvec ws)
  = Ok (Rsum (zip_with Rmult ws
                (zip_with Rmult (zip_with Rminus ys mus)
                                (zip_with Rminus ys mus)))).
Proof.
  intros Hmu Hw. unfold Imp_Gaussian.deviance, mat_sub, schur.
  rewrite elementwise_colvec, !bind_Ok by assumption.
  unfold elementwise, same_size. cbn [colvec n_rows n_cols mem].
  rewrite !Nat.eqb_refl. cbn [andb]. rewrite bind_Ok.
  rewrite Hw, !Nat.eqb_refl. cbn [andb]. rewrite bind_Ok.
  rewrite vec_of_col, bind_Ok. reflexivity.
Qed.

Lemma Rsum_upto_zero (n : nat) (f : nat -> R) :
  (forall i, (i < n)%nat -> f i = 0) -> Rsum_upto n f = 0.
Proof.
  intros H. unfold Rsum_upto. apply Rsum_zero.
  intros v Hv. apply in_map_iff in Hv as [i [<- Hi]].
  apply in_seq in Hi. apply H. lia.
Qed.

Lemma ln_self_ratio (v : R) : v <> 0 -> v * ln (v / v) = 0.
Proof.
  intros Hv. replace (v / v) with 1 by (field; assumption).
  rewrite ln_1. ring.
Qed.

(** ** C6: the Poisson deviance *)

(** C6 (amended).  For y, mu and wt of equal length the Poisson deviance is
    the sum over the observations of 2 w (y log(y/mu) - (y - mu)) where
    y > 0 and of 2 w mu where y <= 0.  For y with no negative entry this is
    the sum of 2 w (y log(y/mu) - (y - mu)) with y log(y/mu) read as 0
    when y <= 0. *)
Theorem poisson_deviance_formula :
  forall ys mus ws : list R,
    length mus = length ys -> length ws = length ys ->
    Imp_Poisson.deviance (colvec ys) (colvec mus) (colvec ws)
    = Ok (Rsum_upto (length ys) (fun i =>
            if Rgt_dec (nth i ys 0) 0
            then Spec.poisson_term (nth i ys 0) (nth i mus 0) (nth i ws 0)
            else 2 * nth i ws 0 * nth i mus 0)) /\
    ((forall v, In v ys -> 0 <= v) ->
     Imp_Poisson.deviance (colvec ys) (colvec mus) (colvec ws)
     = Ok (Rsum_upto (length ys) (fun i =>
             Spec.poisson_term (nth i ys 0) (nth i mus 0) (nth i ws 0)))).
Proof.
  intros ys mus ws Hmu Hw. rewrite poisson_deviance_eq by assumption. split.
  - f_equal. apply Rsum_map_ext. intros i _. cbv zeta.
    unfold Spec.poisson_term.
    destruct (Rgt_dec (nth i ys 0) 0); [|ring].
    destruct (Rle_dec (nth i ys 0) 0); [lra | ring].
  - intros Hpos. f_equal. apply Rsum_map_ext. intros i Hi. cbv zeta.
    apply in_seq in Hi.
    assert (Hy : 0 <= nth i ys 0) by (apply Hpos, nth_In; lia).
    unfold Spec.poisson_term.
    destruct (Rgt_dec (nth i ys 0) 0), (Rle_dec (nth i ys 0) 0);
      try lra; try ring.
    replace (nth i ys 0) with 0 by lra. ring.
Qed.

Lemma poisson_deviance_formula_witness :
  Imp_Poisson.deviance (colvec [2; 0]) (colvec [1; 3]) (colvec [1; 1])
  = Ok (Rsum_upto 2 (fun i =>
          Spec.poisson_term (nth i [2; 0] 0) (nth i [1; 3] 0) (nth i [1; 1] 0))).
Proof.
  refine (proj2 (poisson_deviance_formula [2; 0] [1; 3] [1; 1]
                   eq_refl eq_refl) _).
  intros v [<-|[<-|[]]]; lra.
Defined.

(** C6 as stated fails for a negative response: y = -1, mu = 1, w = 1 gives
    the deviance 2, while the stated sum is 4. *)
Lemma poisson_deviance_negative_counterexample :
  Imp_Poisson.deviance (colvec [-1]) (colvec [1]) (colvec [1]) = Ok 2 /\
  Rsum_upto 1 (fun i =>
    Spec.poisson_term (nth i [-1] 0) (nth i [1] 0) (nth i [1] 0)) = 4 /\
  Imp_Poisson.deviance (colvec [-1]) (colvec [1]) (colvec [1])
  <> Ok (Rsum_upto 1 (fun i =>
           Spec.poisson_term (nth i [-1] 0) (nth i [1] 0) (nth i [1] 0))).
Proof.
  assert (Hcode : Imp_Poisson.deviance (colvec [-1]) (colvec [1]) (colvec [1])
                  = Ok 2).
  { rewrite poisson_deviance_eq by reflexivity. f_equal.
    unfold Rsum_upto. cbn [length seq map nth Rsum fold_right].
    destruct (Rgt_dec (-1) 0); lra. }
  assert (Hspec : Rsum_upto 1 (fun i =>
            Spec.poisson_term (nth i [-1] 0) (nth i [1] 0) (nth i [1] 0)) = 4).
  { unfold Rsum_upto, Spec.poisson_term.
    cbn [length seq map nth Rsum fold_right].
    destruct (Rle_dec (-1) 0); lra. }
  split; [exact Hcode|]. split; [exact Hspec|].
  rewrite Hcode, Hspec. intros H. injection H as H. lra.
Qed.

(** ** C8: the deviance of a perfect fit *)

Lemma gaussian_deviance_self (ys ws : list R) :
  length ws = length ys ->
  Imp_Gaussian.deviance (colvec ys) (colvec ys) (colvec ws) = Ok 0.
Proof.
  intros Hw. rewrite gaussian_deviance_eq by auto. f_equal.
  clear Hw. revert ws; induction ys as [|v ys IH]; intros [|w ws]; simpl; auto.
  rewrite IH. ring.
Qed.

Lemma poisson_deviance_self (ys ws : list R) :
  length ws = length ys -> (forall v, In v ys -> 0 <= v) ->
  Imp_Poisson.deviance (colvec ys) (colvec ys) (colvec ws) = Ok 0.
Proof.
  intros Hw Hpos. rewrite poisson_deviance_eq by auto. f_equal.
  apply Rsum_upto_zero. intros i Hi. cbv zeta.
  assert (Hy : 0 <= nth i ys 0) by (apply Hpos, nth_In; lia).
  destruct (Rgt_dec (nth i ys 0) 0).
  - rewrite ln_self_ratio by lra. ring.
  - replace (nth i ys 0) with 0 by lra. ring.
Qed.

Lemma y_log_y_self (v : R) : Imp_Binomial.y_log_y v v = 0.
Proof.
  unfold Imp_Binomial.y_log_y. destruct (Req_dec_T v 0); auto.
  now apply ln_self_ratio.
Qed.

Lemma binomial_deviance_self (junk : nat -> R) (ys ws : list R) :
  length ws = length ys ->
  Imp_Binomial.deviance junk (colvec ys) (colvec ys) (colvec ws) = Ok 0.
Proof.
  intros Hw. rewrite binomial_deviance_eq by auto. f_equal.
  apply Rsum_upto_zero. intros i Hi. rewrite !y_log_y_self. ring.
Qed.

(** C8.  For a weight vector of the length of y, the deviance of a perfect
    fit is zero: Gaussian for every y, Poisson for every y without negative
    entries, Binomial for every y with all entries in (0,1). *)
Theorem perfect_fit_deviance_zero :
  forall ys ws : list R,
    length ws = length ys ->
    Imp_Gaussian.deviance (colvec ys) (colvec ys) (colvec ws) = Ok 0 /\
    ((forall v, In v ys -> 0 <= v) ->
     Imp_Poisson.deviance (colvec ys) (colvec ys) (colvec ws) = Ok 0) /\
    ((forall v, In v ys -> 0 < v < 1) ->
     forall junk : nat -> R,
       Imp_Binomial.deviance junk (colvec ys) (colvec ys) (colvec ws) = Ok 0).
Proof.
  intros ys ws Hw. split; [|split].
  - now apply gaussian_deviance_self.
  - intros Hpos. now apply poisson_deviance_self.
  - intros _ junk. now apply binomial_deviance_self.
Qed.

Lemma perfect_fit_deviance_zero_witness :
  Imp_Gaussian.deviance (colvec [1 / 2; 1 / 4]) (colvec [1 / 2; 1 / 4])
    (colvec [1; 2]) = Ok 0 /\
  Imp_Poisson.deviance (colvec [1 / 2; 1 / 4]) (colvec [1 / 2; 1 / 4])
    (colvec [1; 2]) = Ok 0 /\
  Imp_Binomial.deviance (fun _ => 7) (colvec [1 / 2; 1 / 4])
    (colvec [1 / 2; 1 / 4]) (colvec [1; 2]) = Ok 0.
Proof.
  destruct (perfect_fit_deviance_zero [1 / 2; 1 / 4] [1; 2] eq_refl)
    as [HG [HP HB]].
  split; [exact HG|]. split.
  - apply HP. intros v [<-|[<-|[]]]; lra.
  - apply HB. intros v [<-|[<-|[]]]; lra.
Defined.

(** ** Matrices described by their entries *)

Lemma has_entries_init (r c : nat) (f : nat -> nat -> R) :
  has_entries (mat_init r c f) r c f.
Proof.
  repeat split.
  - apply (wf_init r c f).
  - intros i j Hi Hj. now apply at_init.
Qed.

Lemma has_entries_ext (m : mat) (r c : nat) (f f' : nat -> nat -> R) :
  has_entries m r c f ->
  (forall i j, (i < r)%nat -> (j < c)%nat -> f i j = f' i j) ->
  has_entries m r c f'.
Proof.
  intros (Hr & Hc & Hl & Hat) Hext. repeat split; auto.
  intros i j Hi Hj. rewrite Hat by assumption. now apply Hext.
Qed.

Lemma has_entries_diagmat (m : mat) (n : nat) (f : nat -> nat -> R) :
  has_entries m n n f ->
  has_entries (diagmat m) n n (fun i j => if (i =? j)%nat then f i j else 0).
Proof.
  intros (Hr & Hc & Hl & Hat). unfold diagmat. rewrite Hr, Hc.
  destruct (Nat.eqb_spec n 1) as [->|Hn]; cbn [orb].
  - unfold n_elem. rewrite Hr, Hc. cbn [Nat.mul Nat.add].
    eapply has_entries_ext; [apply has_entries_init|].
    intros i j Hi Hj. cbv beta.
    destruct (i =? j)%nat; [|reflexivity].
    rewrite <- Hat by assumption. unfold at_. rewrite Hr.
    f_equal. lia.
  - eapply has_entries_ext; [apply has_entries_init|].
    intros i j Hi Hj. cbv beta.
    destruct (i =? j)%nat; [|reflexivity]. now apply Hat.
Qed.

Lemma has_entries_add (a b : mat) (r c : nat) (f g : nat -> nat -> R) :
  has_entries a r c f -> has_entries b r c g ->
  exists m, mat_add a b = Ok m /\
            has_entries m r c (fun i j => f i j + g i j).
Proof.
  intros (Hr & Hc & Hl & Hat) (Hr' & Hc' & Hl' & Hat').
  unfold mat_add, elementwise, same_size.
  rewrite Hr, Hc, Hr', Hc', !Nat.eqb_refl. cbn [andb].
  eexists. split; [reflexivity|]. repeat split.
  - cbn [mem]. rewrite length_zip_with; congruence.
  - intros i j Hi Hj. unfold at_. cbn [n_rows mem].
    pose proof (index_in_range r c i j Hi Hj) as Hidx.
    rewrite nth_zip_with by (try congruence; rewrite Hl; exact Hidx).
    rewrite <- Hat, <- Hat' by assumption. unfold at_.
    now rewrite Hr, Hr'.
Qed.

Lemma has_entries_set_at (m : mat) (r c : nat) (f : nat -> nat -> R)
  (i0 j0 : nat) (v : R) :
  has_entries m r c f -> (i0 < r)%nat -> (j0 < c)%nat ->
  has_entries (set_at m i0 j0 v) r c
    (fun i j => if ((i =? i0) && (j =? j0))%nat%bool then v else f i j).
Proof.
  intros (Hr & Hc & Hl & Hat) Hi0 Hj0. unfold set_at. repeat split; auto.
  - cbn [mem]. now rewrite length_upd.
  - intros i j Hi Hj. unfold at_. cbn [n_rows mem]. rewrite Hr.
    destruct (Nat.eqb_spec i i0) as [->|Hne]; cbn [andb].
    + destruct (Nat.eqb_spec j j0) as [->|Hne].
      * apply nth_upd_same. rewrite Hl. now apply index_in_range.
      * rewrite nth_upd_other
          by (intros E; apply index_inj in E; [tauto | lia | lia]).
        rewrite <- Hat by assumption. unfold at_. now rewrite Hr.
    + rewrite nth_upd_other
        by (intros E; apply index_inj in E; [tauto | lia | lia]).
      rewrite <- Hat by assumption. unfold at_. now rewrite Hr.
Qed.

(** ** The diagonal schedule *)

Lemma pre_inversion_entries (gs : list R) :
  exists Idiag,
    Imp_Pxdim_Learn_Rate.pre_inversion (length gs) (colvec gs) = Ok Idiag /\
    has_entries Idiag (length gs) (length gs)
      (fun i j => if (i =? j)%nat then 1 + nth i gs 0 * nth i gs 0 else 0).
Proof.
  set (n := length gs).
  assert (HG : exists GGt,
             mat_mul (colvec gs) (trans (colvec gs)) = Ok GGt /\
             has_entries GGt n n (fun i j => nth i gs 0 * nth j gs 0)).
  { unfold mat_mul. cbn [colvec trans mat_init n_rows n_cols Nat.eqb].
    eexists. split; [reflexivity|].
    eapply has_entries_ext; [apply has_entries_init|].
    intros i j Hi Hj. cbn [seq map Rsum fold_right].
    change (mat_init 1 (length gs) (fun i0 j0 => at_ (Mat (length gs) 1 gs) j0 i0))
      with (trans (colvec gs)).
    unfold trans. cbn [colvec n_rows n_cols]. rewrite at_init by (auto; lia).
    unfold at_. cbn [colvec n_rows mem].
    replace (i + 0 * length gs)%nat with i by lia.
    replace (j + 0 * length gs)%nat with j by lia. ring. }
  destruct HG as (GGt & HGGt & HE).
  unfold Imp_Pxdim_Learn_Rate.pre_inversion. rewrite HGGt, bind_Ok.
  destruct (has_entries_add (eye n n) (diagmat GGt) n n _ _
              (has_entries_init n n _) (has_entries_diagmat _ _ _ HE))
    as (Idiag & Hadd & HI).
  exists Idiag. split; [exact Hadd|].
  eapply has_entries_ext; [exact HI|].
  intros i j Hi Hj. cbv beta. destruct (Nat.eqb_spec i j) as [->|_]; ring.
Qed.

Lemma invert_loop_entries (n : nat) (M0 : mat) (f : nat -> nat -> R) :
  has_entries M0 n n f ->
  forall k, (k <= n)%nat ->
    has_entries
      (fold_left Imp_Pxdim_Learn_Rate.invert_entry (seq 0 k) M0) n n
      (fun i j => if ((i =? j) && (i <? k))%nat%bool
                  then Spec.invert_above_threshold (f i i) else f i j).
Proof.
  intros H0. induction k as [|k IH]; intros Hk.
  - eapply has_entries_ext; [exact H0|].
    intros i j _ _. cbv beta. now rewrite andb_false_r.
  - rewrite seq_S, fold_left_app. cbn [Nat.add fold_left].
    specialize (IH ltac:(lia)).
    set (Mk := fold_left Imp_Pxdim_Learn_Rate.invert_entry (seq 0 k) M0) in *.
    assert (Hkk : at_ Mk k k = f k k).
    { destruct IH as (_ & _ & _ & Hat). rewrite Hat by lia.
      now rewrite Nat.ltb_irrefl, andb_false_r. }
    unfold Imp_Pxdim_Learn_Rate.invert_entry. rewrite Hkk.
    destruct (Rgt_dec (Rabs (f k k)) 1e-8) as [Hgt|Hle].
    + eapply has_entries_ext;
        [apply (has_entries_set_at Mk n n _ k k _ IH); lia|].
      intros i j Hi Hj. cbv beta.
      destruct (Nat.eqb_spec i k) as [->|Hik]; cbn [andb].
      * destruct (Nat.eqb_spec j k) as [->|Hjk].
        -- rewrite Nat.eqb_refl. cbn [andb].
           replace (k <? S k)%nat with true
             by (symmetry; apply Nat.ltb_lt; lia).
           unfold Spec.invert_above_threshold.
           destruct (Rgt_dec (Rabs (f k k)) 1e-8); [reflexivity|contradiction].
        -- destruct (Nat.eqb_spec k j); [congruence|]. reflexivity.
      * destruct (i =? j)%nat; cbn [andb]; [|reflexivity].
        destruct (Nat.ltb_spec i k), (Nat.ltb_spec i (S k)); auto; lia.
    + eapply has_entries_ext; [exact IH|].
      intros i j Hi Hj. cbv beta.
      destruct (Nat.eqb_spec i j) as [<-|Hij]; cbn [andb]; [|reflexivity].
      destruct (Nat.eqb_spec i k) as [->|Hik].
      * rewrite Nat.ltb_irrefl.
        replace (k <? S k)%nat with true
          by (symmetry; apply Nat.ltb_lt; lia).
        unfold Spec.invert_above_threshold.
        destruct (Rgt_dec (Rabs (f k k)) 1e-8); [contradiction|reflexivity].
      * destruct (Nat.ltb_spec i k), (Nat.ltb_spec i (S k)); auto; lia.
Qed.

Lemma pxdim_learning_rate_entries
  (score_func : mat -> Imp_DataPoint -> result mat)
  (theta : mat) (dp : Imp_DataPoint) (t : nat) (gs : list R) :
  score_func theta dp = Ok (colvec gs) ->
  exists Idiag M,
    Imp_Pxdim_Learn_Rate.pre_inversion (length gs) (colvec gs) = Ok Idiag /\
    has_entries Idiag (length gs) (length gs)
      (fun i j => if (i =? j)%nat then 1 + nth i gs 0 * nth i gs 0 else 0) /\
    Imp_Pxdim_Learn_Rate.learning_rate theta dp t (length gs) (Some score_func)
    = Ok M /\
    M = fold_left Imp_Pxdim_Learn_Rate.invert_entry (seq 0 (length gs)) Idiag /\
    has_entries M (length gs) (length gs)
      (fun i j => if (i =? j)%nat
                  then Spec.invert_above_threshold (at_ Idiag i i) else 0).
Proof.
  intros Hsf. destruct (pre_inversion_entries gs) as (Idiag & Hpre & HI).
  exists Idiag. eexists. split; [exact Hpre|]. split; [exact HI|].
  unfold Imp_Pxdim_Learn_Rate.learning_rate. cbn [call_score_func].
  rewrite Hsf, bind_Ok, Hpre, bind_Ok. split; [reflexivity|].
  split; [reflexivity|].
  eapply has_entries_ext;
    [apply (invert_loop_entries _ _ _ HI (length gs)); lia|].
  intros i j Hi Hj. cbv beta.
  destruct HI as (_ & _ & _ & Hat). rewrite (Hat i i) by assumption.
  rewrite Nat.eqb_refl.
  replace (i <? length gs)%nat with true by (symmetry; now apply Nat.ltb_lt).
  destruct (i =? j)%nat; reflexivity.
Qed.

(** ** C5: the shape of the diagonal schedule *)

(** C5.  With the transfer bound, the diagonal schedule selected, and
    theta_old, x and p of one dimension, the schedule returns a p x p
    matrix whose off-diagonal entries are zero.  Its pre-inversion matrix
    is I_p + diag(Gi Gi^t) for Gi the score at (theta_old, data point); a
    diagonal entry of magnitude above 1e-8 is returned as its reciprocal,
    one of magnitude at most 1e-8 is returned unchanged. *)
Theorem diagonal_schedule_shape :
  forall (e : Imp_Experiment) (h : R -> R) (theta xv : list R) (yv : R)
         (t : nat),
    transfer_ e = Some h ->
    lr_ e = lr_pxdim_this ->
    length theta = length xv ->
    p e = length xv ->
    let dp := DataPoint (rowvec xv) yv in
    exists Gi Idiag M : mat,
      score_function e (colvec theta) dp = Ok Gi /\
      Imp_Pxdim_Learn_Rate.pre_inversion (p e) Gi = Ok Idiag /\
      (forall i j, (i < p e)%nat -> (j < p e)%nat ->
         at_ Idiag i j
         = at_ (eye (p e) (p e)) i j
           + (if (i =? j)%nat then nth i (mem Gi) 0 * nth i (mem Gi) 0 else 0)) /\
      learning_rate e (colvec theta) dp t = Ok M /\
      n_rows M = p e /\ n_cols M = p e /\
      (forall i j, (i < p e)%nat -> (j < p e)%nat -> i <> j -> at_ M i j = 0) /\
      (forall i, (i < p e)%nat ->
         (Rabs (at_ Idiag i i) > 1e-8 -> at_ M i i = 1 / at_ Idiag i i) /\
         (Rabs (at_ Idiag i i) <= 1e-8 -> at_ M i i = at_ Idiag i i)).
Proof.
  intros e h theta xv yv t Hh Hlr Hlen Hp dp.
  pose proof (score_function_bound e h theta xv yv Hh Hlen) as Hscore.
  fold dp in Hscore.
  set (gs := map (fun xi => (yv - h (dotl xv theta)) * xi) xv) in *.
  assert (Hgs : length gs = p e) by (unfold gs; now rewrite length_map).
  destruct (pxdim_learning_rate_entries (score_function e) (colvec theta) dp t
              gs Hscore) as (Idiag & M & Hpre & HI & Hrate & _ & HM).
  rewrite Hgs in Hpre, HI, Hrate, HM.
  exists (colvec gs), Idiag, M.
  destruct HI as (_ & _ & _ & HatI). destruct HM as (Hr & Hc & _ & HatM).
  split; [exact Hscore|]. split; [exact Hpre|]. split.
  { intros i j Hi Hj. rewrite HatI, at_eye by assumption.
    cbn [colvec mem]. destruct (i =? j)%nat; ring. }
  split. { unfold learning_rate. rewrite Hlr. exact Hrate. }
  split; [exact Hr|]. split; [exact Hc|]. split.
  - intros i j Hi Hj Hij. rewrite HatM by assumption.
    destruct (Nat.eqb_spec i j); [contradiction | reflexivity].
  - intros i Hi. rewrite HatM, Nat.eqb_refl by assumption.
    unfold Spec.invert_above_threshold.
    destruct (Rgt_dec (Rabs (at_ Idiag i i)) 1e-8); split; intros; auto; lra.
Qed.

Lemma diagonal_schedule_shape_witness :
  let e := init_px_dim_learning_rate (Imp_Experiment_new 2 10 "identity") in
  let dp := DataPoint (rowvec [1; 2]) 3 in
  exists Gi Idiag M : mat,
    score_function e (colvec [0; 0]) dp = Ok Gi /\
    Imp_Pxdim_Learn_Rate.pre_inversion (p e) Gi = Ok Idiag /\
    (forall i j, (i < p e)%nat -> (j < p e)%nat ->
       at_ Idiag i j
       = at_ (eye (p e) (p e)) i j
         + (if (i =? j)%nat then nth i (mem Gi) 0 * nth i (mem Gi) 0 else 0)) /\
    learning_rate e (colvec [0; 0]) dp 0 = Ok M /\
    n_rows M = p e /\ n_cols M = p e /\
    (forall i j, (i < p e)%nat -> (j < p e)%nat -> i <> j -> at_ M i j = 0) /\
    (forall i, (i < p e)%nat ->
       (Rabs (at_ Idiag i i) > 1e-8 -> at_ M i i = 1 / at_ Idiag i i) /\
       (Rabs (at_ Idiag i i) <= 1e-8 -> at_ M i i = at_ Idiag i i)).
Proof.
  exact (diagonal_schedule_shape
           (init_px_dim_learning_rate (Imp_Experiment_new 2 10 "identity"))
           Imp_Identity_Transfer.transfer [0; 0] [1; 2] 3 0
           eq_refl eq_refl eq_refl eq_refl).
Defined.

(** ** C9: the inversion is always taken *)

(** C9 (amended).  In exact real arithmetic, that is as long as the score
    coordinates G_i and the sums 1 + G_i^2 are computed without overflow
    and without NaN: when the score is a vector G of p coordinates, the
    pre-inversion diagonal entry i is 1 + G_i^2, so it is at least 1; the
    test of iteration i of the loop (magnitude above 1e-8) succeeds, so the
    branch that keeps an entry is not taken; the returned diagonal entry
    is 1 / (1 + G_i^2) and lies in (0, 1]. *)
Theorem diagonal_schedule_entries_in_unit_interval :
  forall (score_func : mat -> Imp_DataPoint -> result mat) (theta : mat)
         (dp : Imp_DataPoint) (t : nat) (gs : list R),
    score_func theta dp = Ok (colvec gs) ->
    exists Idiag M : mat,
      Imp_Pxdim_Learn_Rate.pre_inversion (length gs) (colvec gs) = Ok Idiag /\
      Imp_Pxdim_Learn_Rate.learning_rate theta dp t (length gs)
        (Some score_func) = Ok M /\
      forall i, (i < length gs)%nat ->
        at_ Idiag i i = 1 + nth i gs 0 ^ 2 /\
        1 <= at_ Idiag i i /\
        Rabs (at_ (fold_left Imp_Pxdim_Learn_Rate.invert_entry (seq 0 i) Idiag)
                  i i) > 1e-8 /\
        at_ M i i = 1 / (1 + nth i gs 0 ^ 2) /\
        0 < at_ M i i <= 1.
Proof.
  intros sf theta dp t gs Hsf.
  destruct (pxdim_learning_rate_entries sf theta dp t gs Hsf)
    as (Idiag & M & Hpre & HI & Hrate & _ & HM).
  exists Idiag, M. split; [exact Hpre|]. split; [exact Hrate|].
  intros i Hi.
  pose proof (invert_loop_entries _ _ _ HI i ltac:(lia)) as (_ & _ & _ & Hloop).
  destruct HI as (_ & _ & _ & HatI). destruct HM as (_ & _ & _ & HatM).
  specialize (HatI i i Hi Hi). specialize (HatM i i Hi Hi).
  specialize (Hloop i i Hi Hi). cbv beta in Hloop.
  rewrite Nat.eqb_refl in HatI, HatM.
  rewrite Nat.ltb_irrefl, andb_false_r, Nat.eqb_refl in Hloop.
  set (gi := nth i gs 0) in *.
  assert (Hsq : 0 <= gi * gi) by nra.
  assert (Hd : at_ Idiag i i = 1 + gi ^ 2) by (rewrite HatI; ring).
  assert (Hge : 1 <= at_ Idiag i i) by (rewrite HatI; lra).
  assert (Habs : Rabs (at_ Idiag i i) > 1e-8) by (rewrite Rabs_right; lra).
  assert (Hinv : at_ M i i = 1 / (1 + gi ^ 2)).
  { rewrite HatM. unfold Spec.invert_above_threshold.
    destruct (Rgt_dec (Rabs (at_ Idiag i i)) 1e-8); [|contradiction].
    now rewrite Hd. }
  split; [exact Hd|]. split; [exact Hge|]. split.
  { rewrite Hloop, <- HatI. exact Habs. }
  split; [exact Hinv|].
  rewrite Hinv. replace (1 + gi ^ 2) with (1 + gi * gi) by ring.
  split.
  - apply Rdiv_lt_0_compat; lra.
  - apply (Rmult_le_reg_r (1 + gi * gi)); [lra|].
    field_simplify; lra.
Qed.

Lemma diagonal_schedule_entries_in_unit_interval_witness :
  exists Idiag M : mat,
    Imp_Pxdim_Learn_Rate.pre_inversion 2 (colvec [3; 0]) = Ok Idiag /\
    Imp_Pxdim_Learn_Rate.learning_rate (colvec [0; 0])
      (DataPoint (rowvec [1; 2]) 3) 0 2 (Some (fun _ _ => Ok (colvec [3; 0])))
    = Ok M /\
    forall i, (i < 2)%nat ->
      at_ Idiag i i = 1 + nth i [3; 0] 0 ^ 2 /\
      1 <= at_ Idiag i i /\
      Rabs (at_ (fold_left Imp_Pxdim_Learn_Rate.invert_entry (seq 0 i) Idiag)
                i i) > 1e-8 /\
      at_ M i i = 1 / (1 + nth i [3; 0] 0 ^ 2) /\
      0 < at_ M i i <= 1.
Proof.
  exact (diagonal_schedule_entries_in_unit_interval
           (fun _ _ => Ok (colvec [3; 0])) (colvec [0; 0])
           (DataPoint (rowvec [1; 2]) 3) 0 [3; 0] eq_refl).
Defined.

(** C9 as stated fails on doubles.  With the Identity transfer, theta_old =
    [0], x = [1e200] and y = 1 the score is 1e200, its square overflows,
    the pre-inversion entry is infinite and the returned entry is 0, which
    is not in (0, 1].  With theta_old = [1e200, 0], x = [1e200, 0] and
    y = 1 the score is [-inf, NaN], the pre-inversion entry 1 is NaN, the
    test of iteration 1 fails, and the branch that keeps the entry returns
    NaN. *)
Section Binary64_runs.
Import PrimFloat.

#[warnings="-inexact-float"]
Lemma diagonal_schedule_binary64_counterexample :
  let score := Binary64.score_function
                 (Some Binary64.Imp_Identity_Transfer_transfer) in
  (exists M,
      Binary64.learning_rate (Binary64.colvec [0%float])
        (Binary64.DataPoint (Binary64.rowvec [1e200%float]) 1%float) 0 1
        (Some score) = Ok M /\
      Binary64.at_ M 0 0 = 0%float /\
      ltb 0%float (Binary64.at_ M 0 0) = false) /\
  (exists Gi Idiag M,
      score (Binary64.colvec [1e200%float; 0%float])
        (Binary64.DataPoint (Binary64.rowvec [1e200%float; 0%float]) 1%float)
      = Ok Gi /\
      Binary64.pre_inversion 2 Gi = Ok Idiag /\
      Binary64.above_threshold
        (Binary64.at_ (fold_left Binary64.invert_entry (seq 0 1) Idiag) 1 1)
      = false /\
      Binary64.learning_rate (Binary64.colvec [1e200%float; 0%float])
        (Binary64.DataPoint (Binary64.rowvec [1e200%float; 0%float]) 1%float)
        0 2 (Some score) = Ok M /\
      Binary64.at_ M 1 1 = nan /\
      leb (Binary64.at_ M 1 1) 1%float = false).
Proof.
  split.
  - eexists. split; [vm_compute; reflexivity|].
    split; vm_compute; reflexivity.
  - do 3 eexists. split; [vm_compute; reflexivity|].
    split; [vm_compute; reflexivity|].
    repeat split; vm_compute; reflexivity.
Qed.

End Binary64_runs.

(** ** The transfer functions and their derivatives *)

Lemma derivable_pt_lim_ext (f g : R -> R) (x0 l : R) :
  (forall z, f z = g z) -> derivable_pt_lim f x0 l -> derivable_pt_lim g x0 l.
Proof.
  intros E H eps Heps. destruct (H eps Heps) as [delta Hd].
  exists delta. intros h Hh Hlt. rewrite <- !E. now apply Hd.
Qed.

Lemma sigmoid_range (u : R) :
  0 < Imp_Logistic_Transfer.sigmoid u < 1.
Proof.
  unfold Imp_Logistic_Transfer.sigmoid. pose proof (exp_pos (- u)) as He.
  split.
  - apply Rdiv_lt_0_compat; lra.
  - apply (Rmult_lt_reg_r (1 + exp (- u))); [lra|].
    field_simplify; lra.
Qed.

Lemma sigmoid_increasing (u1 u2 : R) :
  u1 < u2 -> Imp_Logistic_Transfer.sigmoid u1 < Imp_Logistic_Transfer.sigmoid u2.
Proof.
  intros H. unfold Imp_Logistic_Transfer.sigmoid.
  pose proof (exp_pos (- u1)) as H1. pose proof (exp_pos (- u2)) as H2.
  assert (He : exp (- u2) < exp (- u1)) by (apply exp_increasing; lra).
  unfold Rdiv. rewrite !Rmult_1_l.
  apply Rinv_lt_contravar; [apply Rmult_lt_0_compat; lra | lra].
Qed.

Lemma sigmoid_derivative (u : R) :
  derivable_pt_lim Imp_Logistic_Transfer.sigmoid u
    (Imp_Logistic_Transfer.first_derivative u).
Proof.
  assert (Hpos : 0 < 1 + exp (- u)) by (pose proof (exp_pos (- u)); lra).
  assert (Hneg : derivable_pt_lim (fun z => exp (- z)) u (- exp (- u))).
  { replace (- exp (- u)) with (exp (- u) * - (1)) by ring.
    apply (derivable_pt_lim_comp (fun z => - z) exp).
    - exact (derivable_pt_lim_opp id u 1 (derivable_pt_lim_id u)).
    - apply derivable_pt_lim_exp. }
  assert (Hden : derivable_pt_lim (fun z => 1 + exp (- z)) u (0 + - exp (- u))).
  { apply (derivable_pt_lim_plus (fun _ => 1) (fun z => exp (- z)));
      [apply derivable_pt_lim_const | exact Hneg]. }
  pose proof (derivable_pt_lim_div (fun _ => 1) (fun z => 1 + exp (- z)) u 0 _
                (derivable_pt_lim_const 1 u) Hden (Rgt_not_eq _ _ Hpos)) as H.
  eapply derivable_pt_lim_ext in H; [|intros z; reflexivity].
  replace (Imp_Logistic_Transfer.first_derivative u)
    with ((0 * (1 + exp (- u)) - (0 + - exp (- u)) * 1) / Rsqr (1 + exp (- u))).
  - exact H.
  - unfold Imp_Logistic_Transfer.first_derivative,
      Imp_Logistic_Transfer.sigmoid, Rsqr.
    field. lra.
Qed.

Lemma logistic_first_derivative_derivative (u : R) :
  derivable_pt_lim Imp_Logistic_Transfer.first_derivative u
    (Imp_Logistic_Transfer.second_derivative u
     - Imp_Logistic_Transfer.sigmoid u).
Proof.
  pose proof (sigmoid_derivative u) as Hs.
  set (s := Imp_Logistic_Transfer.sigmoid) in *.
  set (s1 := Imp_Logistic_Transfer.first_derivative u) in *.
  assert (Hc : derivable_pt_lim (fun z => 1 - s z) u (0 - s1)).
  { apply (derivable_pt_lim_minus (fun _ => 1) s);
      [apply derivable_pt_lim_const | exact Hs]. }
  pose proof (derivable_pt_lim_mult s (fun z => 1 - s z) u _ _ Hs Hc) as H.
  eapply derivable_pt_lim_ext in H; [|intros z; reflexivity].
  replace (Imp_Logistic_Transfer.second_derivative u - s u)
    with (s1 * (fun z => 1 - s z) u + s u * (0 - s1)).
  - exact H.
  - unfold s1, Imp_Logistic_Transfer.second_derivative,
      Imp_Logistic_Transfer.first_derivative. fold s. cbv beta zeta. ring.
Qed.

(** X1.  The Logistic transfer takes its values between 0 and 1, both
    bounds included, and never decreases: transfer(u) <= transfer(u')
    whenever u <= u'. *)
Theorem logistic_transfer_range_monotone :
  forall u : R,
    0 <= Imp_Logistic_Transfer.transfer u <= 1 /\
    (forall u', u <= u' ->
       Imp_Logistic_Transfer.transfer u <= Imp_Logistic_Transfer.transfer u').
Proof.
  intros u. unfold Imp_Logistic_Transfer.transfer. split.
  - pose proof (sigmoid_range u). lra.
  - intros u' [H| <-]; [|lra]. left. now apply sigmoid_increasing.
Qed.

Lemma logistic_transfer_range_monotone_witness :
  Imp_Logistic_Transfer.transfer 0 <= Imp_Logistic_Transfer.transfer 1.
Proof.
  apply (proj2 (logistic_transfer_range_monotone 0)). lra.
Defined.

(** X2.  The first derivative of the Logistic transfer, as the code
    computes it, is the derivative of the transfer, and lies between 0 and
    1/4, both bounds included. *)
Theorem logistic_first_derivative_correct :
  forall u : R,
    derivable_pt_lim Imp_Logistic_Transfer.transfer u
      (Imp_Logistic_Transfer.first_derivative u) /\
    0 <= Imp_Logistic_Transfer.first_derivative u <= 1 / 4.
Proof.
  intros u. split.
  - apply sigmoid_derivative.
  - unfold Imp_Logistic_Transfer.first_derivative. cbv zeta.
    pose proof (sigmoid_range u) as [H0 H1].
    set (s := Imp_Logistic_Transfer.sigmoid u) in *.
    split; [apply Rmult_le_pos; lra|].
    pose proof (Rle_0_sqr (s - 1 / 2)) as Hsq. unfold Rsqr in Hsq. lra.
Qed.

(** X3.  The second derivative of the Logistic transfer, as the code
    computes it (2 s^3 - 3 s^2 + 2 s for s the sigmoid), exceeds the
    derivative of the first derivative by s: the derivative of
    [first_derivative] at u is [second_derivative u - transfer u], so
    [second_derivative u] is at no u the derivative of [first_derivative]. *)
Theorem logistic_second_derivative_offset :
  forall u : R,
    derivable_pt_lim Imp_Logistic_Transfer.first_derivative u
      (Imp_Logistic_Transfer.second_derivative u
       - Imp_Logistic_Transfer.transfer u) /\
    ~ derivable_pt_lim Imp_Logistic_Transfer.first_derivative u
        (Imp_Logistic_Transfer.second_derivative u).
Proof.
  intros u. split.
  - apply logistic_first_derivative_derivative.
  - intros H.
    pose proof (uniqueness_limite _ _ _ _ H
                  (logistic_first_derivative_derivative u)) as E.
    pose proof (sigmoid_range u). lra.
Qed.

(** ** The experiments a host can build *)

Lemma new_transfer_cases (p0 n_iters0 : nat) (transfer_name : string) :
  let e := Imp_Experiment_new p0 n_iters0 transfer_name in
  lr_ e = lr_empty /\
  ((transfer_ e = None /\ transfer_first_deriv_ e = None /\
    transfer_second_deriv_ e = None) \/
   (transfer_ e = Some Imp_Identity_Transfer.transfer /\
    transfer_first_deriv_ e = Some Imp_Identity_Transfer.first_derivative /\
    transfer_second_deriv_ e = Some Imp_Identity_Transfer.second_derivative) \/
   (transfer_ e = Some Imp_Exp_Transfer.transfer /\
    transfer_first_deriv_ e = Some Imp_Exp_Transfer.first_derivative /\
    transfer_second_deriv_ e = Some Imp_Exp_Transfer.second_derivative) \/
   (transfer_ e = Some Imp_Logistic_Transfer.transfer /\
    transfer_first_deriv_ e = Some Imp_Logistic_Transfer.first_derivative /\
    transfer_second_deriv_ e = Some Imp_Logistic_Transfer.second_derivative)).
Proof.
  unfold Imp_Experiment_new.
  destruct (String.eqb transfer_name "identity");
    [|destruct (String.eqb transfer_name "exp");
      [|destruct (String.eqb transfer_name "logistic")]];
    cbn; split; auto 10.
Qed.

Lemma configured_transfer_cases (e : Imp_Experiment) :
  configured e ->
  (transfer_ e = None /\ transfer_first_deriv_ e = None /\
   transfer_second_deriv_ e = None) \/
  (transfer_ e = Some Imp_Identity_Transfer.transfer /\
   transfer_first_deriv_ e = Some Imp_Identity_Transfer.first_derivative /\
   transfer_second_deriv_ e = Some Imp_Identity_Transfer.second_derivative) \/
  (transfer_ e = Some Imp_Exp_Transfer.transfer /\
   transfer_first_deriv_ e = Some Imp_Exp_Transfer.first_derivative /\
   transfer_second_deriv_ e = Some Imp_Exp_Transfer.second_derivative) \/
  (transfer_ e = Some Imp_Logistic_Transfer.transfer /\
   transfer_first_deriv_ e = Some Imp_Logistic_Transfer.first_derivative /\
   transfer_second_deriv_ e = Some Imp_Logistic_Transfer.second_derivative).
Proof.
  induction 1 as [p0 n0 name| | |]; cbn [transfer_ transfer_first_deriv_
    transfer_second_deriv_ init_uni_dim_learning_rate init_px_dim_learning_rate];
    auto.
  apply new_transfer_cases.
Qed.

(** X4.  In every experiment a host can build (constructor, then schedule
    selections and assignments to the public members) the three transfer
    bindings are set together or empty together; when they are set, the
    bound first derivative is the derivative of the bound transfer. *)
Theorem configured_bindings_consistent :
  forall e : Imp_Experiment,
    configured e ->
    (transfer_ e = None /\ transfer_first_deriv_ e = None /\
     transfer_second_deriv_ e = None) \/
    (exists h h1 h2 : R -> R,
        transfer_ e = Some h /\ transfer_first_deriv_ e = Some h1 /\
        transfer_second_deriv_ e = Some h2 /\
        forall u, derivable_pt_lim h u (h1 u)).
Proof.
  intros e He.
  destruct (configured_transfer_cases e He)
    as [H|[(H & H1 & H2)|[(H & H1 & H2)|(H & H1 & H2)]]]; [now left| | |];
    right; do 3 eexists; (split; [exact H|]); (split; [exact H1|]);
    (split; [exact H2|]); intros u.
  - exact (derivable_pt_lim_id u).
  - exact (derivable_pt_lim_exp u).
  - exact (sigmoid_derivative u).
Qed.

Lemma configured_bindings_consistent_witness :
  let e := init_px_dim_learning_rate (Imp_Experiment_new 2 10 "logistic") in
  (transfer_ e = None /\ transfer_first_deriv_ e = None /\
   transfer_second_deriv_ e = None) \/
  (exists h h1 h2 : R -> R,
      transfer_ e = Some h /\ transfer_first_deriv_ e = Some h1 /\
      transfer_second_deriv_ e = Some h2 /\
      forall u, derivable_pt_lim h u (h1 u)).
Proof.
  exact (configured_bindings_consistent _
           (configured_px _ (configured_new 2 10 "logistic"))).
Defined.

(** X5.  Until a schedule is selected, [learning_rate] throws
    [bad_function_call], for every transfer name and every argument. *)
Theorem learning_rate_before_selection_throws :
  forall (p0 n_iters0 : nat) (transfer_name : string) (theta : mat)
         (dp : Imp_DataPoint) (t : nat),
    learning_rate (Imp_Experiment_new p0 n_iters0 transfer_name) theta dp t
    = Throw bad_function_call.
Proof.
  intros p0 n0 name theta dp t. unfold learning_rate.
  now rewrite (proj1 (new_transfer_cases p0 n0 name)).
Qed.

(** X6.  Once the uniform schedule is selected, [learning_rate] never
    throws, whatever the transfer binding, theta_old and the data point
    are, and returns a p x p matrix, p being the experiment's member.  For
    alpha >= 0, gamma >= 0 and c >= 0 (so that the base of the power is at
    least 1) the matrix has scale gamma (1 + alpha gamma t)^(-c) on the
    diagonal and 0 elsewhere, and with scale = 0 every entry is 0. *)
Theorem uniform_schedule_selected :
  forall (e : Imp_Experiment) (gamma alpha c scale : R) (theta : mat)
         (dp : Imp_DataPoint) (t : nat),
    exists M : mat,
      learning_rate (init_uni_dim_learning_rate e gamma alpha c scale)
        theta dp t = Ok M /\
      n_rows M = p e /\ n_cols M = p e /\
      (0 <= alpha -> 0 <= gamma -> 0 <= c ->
       1 <= 1 + alpha * gamma * INR t /\
       has_entries M (p e) (p e)
         (fun i j => if (i =? j)%nat
                     then scale * gamma * Rpower (1 + alpha * gamma * INR t) (- c)
                     else 0) /\
       (scale = 0 ->
        forall i j, (i < p e)%nat -> (j < p e)%nat -> at_ M i j = 0)).
Proof.
  intros e gamma alpha c scale theta dp t.
  eexists. split; [reflexivity|].
  cbn [init_uni_dim_learning_rate p].
  assert (HE : has_entries
                 (Imp_Unidim_Learn_Rate.learning_rate theta dp t (p e)
                    gamma alpha c scale) (p e) (p e)
                 (fun i j => if (i =? j)%nat
                             then scale * gamma
                                  * Rpower (1 + alpha * gamma * INR t) (- c)
                             else 0)).
  { repeat split.
    - unfold Imp_Unidim_Learn_Rate.learning_rate, scale_r. cbn [mem].
      rewrite length_map. apply (wf_init (p e) (p e)).
    - intros i j Hi Hj. now rewrite at_unidim. }
  split; [exact (proj1 HE)|]. split; [exact (proj1 (proj2 HE))|].
  intros Ha Hg Hc. split.
  { pose proof (Rmult_le_pos _ _ (Rmult_le_pos _ _ Ha Hg) (pos_INR t)). lra. }
  split; [exact HE|].
  intros Hs i j Hi Hj. destruct HE as (_ & _ & _ & Hat).
  rewrite Hat by assumption. subst scale.
  destruct (i =? j)%nat; ring.
Qed.

Lemma uniform_schedule_selected_witness :
  exists M : mat,
    learning_rate
      (init_uni_dim_learning_rate (Imp_Experiment_new 2 10 "probit") 1 1 1 0)
      mat_empty (DataPoint mat_empty 0) 3 = Ok M /\
    forall i j, (i < 2)%nat -> (j < 2)%nat -> at_ M i j = 0.
Proof.
  destruct (uniform_schedule_selected (Imp_Experiment_new 2 10 "probit")
              1 1 1 0 mat_empty (DataPoint mat_empty 0) 3)
    as (M & HM & _ & _ & H).
  exists M. split; [exact HM|].
  destruct (H ltac:(lra) ltac:(lra) ltac:(lra)) as (_ & _ & Hz).
  exact (Hz eq_refl).
Defined.

(** ** The score function and the diagonal schedule: failures and values *)

Lemma score_function_cases (e : Imp_Experiment) (theta : mat)
  (dp : Imp_DataPoint) :
  (n_cols (x dp) <> n_rows theta ->
   score_function e theta dp = Throw size_mismatch) /\
  (n_cols (x dp) = n_rows theta ->
   (n_rows (x dp) * n_cols theta)%nat <> 1%nat ->
   score_function e theta dp = Throw size_mismatch) /\
  (n_cols (x dp) = n_rows theta ->
   (n_rows (x dp) * n_cols theta)%nat = 1%nat ->
   transfer_ e = None ->
   score_function e theta dp = Throw bad_function_call) /\
  (n_cols (x dp) = n_rows theta ->
   (n_rows (x dp) * n_cols theta)%nat = 1%nat ->
   transfer_ e <> None ->
   exists s, score_function e theta dp = Ok s) /\
  (forall s, score_function e theta dp = Ok s ->
     n_cols (x dp) = n_rows theta /\
     (n_rows (x dp) * n_cols theta)%nat = 1%nat /\
     transfer_ e <> None /\
     n_rows s = n_cols (x dp) /\ n_cols s = n_rows (x dp)).
Proof.
  unfold score_function, mat_mul, as_scalar, n_elem.
  destruct (Nat.eqb_spec (n_cols (x dp)) (n_rows theta)) as [Hc|Hc];
    cbn [bind mat_init n_rows n_cols].
  2:{ split; [reflexivity|]. split; [contradiction|].
      split; [contradiction|]. split; [contradiction|].
      intros s Hs. discriminate Hs. }
  destruct (Nat.eqb_spec (n_rows (x dp) * n_cols theta) 1) as [H1|H1];
    cbn [bind].
  2:{ split; [contradiction|]. split; [reflexivity|].
      split; [contradiction|]. split; [contradiction|].
      intros s Hs. discriminate Hs. }
  unfold h_transfer. destruct (transfer_ e) as [h|]; cbn [call_uni_func bind].
  - split; [contradiction|]. split; [contradiction|].
    split; [intros _ _ Hn; discriminate Hn|].
    split; [intros _ _ _; eexists; reflexivity|].
    intros s Hs. injection Hs as <-.
    repeat split; auto. discriminate.
  - split; [contradiction|]. split; [contradiction|].
    split; [reflexivity|]. split; [intros _ _ Hn; contradiction|].
    intros s Hs. discriminate Hs.
Qed.

(** X7.  [score_function] returns a value exactly when x has as many
    columns as theta_old has rows, their product is 1 x 1, and the transfer
    is bound; the value then has the shape of x transposed.  A wrong shape
    throws a size error, also when the transfer is empty; an empty transfer
    with the right shapes throws [bad_function_call]. *)
Theorem score_function_outcomes :
  forall (e : Imp_Experiment) (theta : mat) (dp : Imp_DataPoint),
    ((exists s, score_function e theta dp = Ok s) <->
     n_cols (x dp) = n_rows theta /\
     (n_rows (x dp) * n_cols theta)%nat = 1%nat /\
     transfer_ e <> None) /\
    (forall s, score_function e theta dp = Ok s ->
       n_rows s = n_cols (x dp) /\ n_cols s = n_rows (x dp)) /\
    (n_cols (x dp) <> n_rows theta ->
     score_function e theta dp = Throw size_mismatch) /\
    (n_cols (x dp) = n_rows theta ->
     (n_rows (x dp) * n_cols theta)%nat <> 1%nat ->
     score_function e theta dp = Throw size_mismatch) /\
    (n_cols (x dp) = n_rows theta ->
     (n_rows (x dp) * n_cols theta)%nat = 1%nat ->
     transfer_ e = None ->
     score_function e theta dp = Throw bad_function_call).
Proof.
  intros e theta dp.
  destruct (score_function_cases e theta dp) as (H1 & H2 & H3 & H4 & H5).
  split; [|split; [|split; [exact H1|split; [exact H2|exact H3]]]].
  - split.
    + intros [s Hs]. destruct (H5 s Hs) as (A & B & C & _). auto.
    + intros (A & B & C). now apply H4.
  - intros s Hs. destruct (H5 s Hs) as (_ & _ & _ & D). exact D.
Qed.

Lemma score_function_outcomes_witness :
  score_function (Imp_Experiment_new 2 10 "probit") (colvec [0; 0; 0])
    (DataPoint (rowvec [1; 2]) 3) = Throw size_mismatch /\
  score_function (Imp_Experiment_new 2 10 "probit") (colvec [0; 0])
    (DataPoint (rowvec [1; 2]) 3) = Throw bad_function_call.
Proof.
  split.
  - apply (proj1 (proj2 (proj2
             (score_function_outcomes (Imp_Experiment_new 2 10 "probit")
                (colvec [0; 0; 0]) (DataPoint (rowvec [1; 2]) 3))))).
    cbn. lia.
  - apply (proj2 (proj2 (proj2 (proj2
             (score_function_outcomes (Imp_Experiment_new 2 10 "probit")
                (colvec [0; 0]) (DataPoint (rowvec [1; 2]) 3))))));
      reflexivity.
Defined.

Lemma outer_product_entries (gs : list R) :
  exists GGt,
    mat_mul (colvec gs) (trans (colvec gs)) = Ok GGt /\
    has_entries GGt (length gs) (length gs)
      (fun i j => nth i gs 0 * nth j gs 0).
Proof.
  unfold mat_mul. cbn [colvec trans mat_init n_rows n_cols Nat.eqb].
  eexists. split; [reflexivity|].
  eapply has_entries_ext; [apply has_entries_init|].
  intros i j Hi Hj. cbn [seq map Rsum fold_right].
  change (mat_init 1 (length gs) (fun i0 j0 => at_ (Mat (length gs) 1 gs) j0 i0))
    with (trans (colvec gs)).
  unfold trans. cbn [colvec n_rows n_cols]. rewrite at_init by (auto; lia).
  unfold at_. cbn [colvec n_rows mem].
  replace (i + 0 * length gs)%nat with i by lia.
  replace (j + 0 * length gs)%nat with j by lia. ring.
Qed.

Lemma pre_inversion_mismatch (p0 : nat) (gs : list R) :
  p0 <> length gs ->
  Imp_Pxdim_Learn_Rate.pre_inversion p0 (colvec gs) = Throw size_mismatch.
Proof.
  intros Hp. destruct (outer_product_entries gs) as (GGt & HG & HE).
  unfold Imp_Pxdim_Learn_Rate.pre_inversion. rewrite HG, bind_Ok.
  destruct (has_entries_diagmat _ _ _ HE) as (Hr & _).
  unfold mat_add, elementwise, same_size. rewrite Hr.
  cbn [eye mat_init n_rows n_cols].
  destruct (Nat.eqb_spec p0 (length gs)); [contradiction | reflexivity].
Qed.

Lemma invert_above_threshold_ge_one (d : R) :
  1 <= d -> Spec.invert_above_threshold d = 1 / d.
Proof.
  intros Hd. unfold Spec.invert_above_threshold.
  destruct (Rgt_dec (Rabs d) 1e-8) as [|Hn]; [reflexivity|].
  exfalso. apply Hn. rewrite Rabs_right; lra.
Qed.

(** X8.  With the diagonal schedule selected and theta_old and x of one
    dimension, [learning_rate] throws [bad_function_call] when the transfer
    is empty, and a size error when the transfer is bound but the member p
    differs from the dimension of x. *)
Theorem diagonal_schedule_failures :
  forall (e : Imp_Experiment) (theta xv : list R) (yv : R) (t : nat),
    lr_ e = lr_pxdim_this ->
    length theta = length xv ->
    let dp := DataPoint (rowvec xv) yv in
    (transfer_ e = None ->
     learning_rate e (colvec theta) dp t = Throw bad_function_call) /\
    (transfer_ e <> None -> p e <> length xv ->
     learning_rate e (colvec theta) dp t = Throw size_mismatch).
Proof.
  intros e theta xv yv t Hlr Hlen dp.
  unfold learning_rate, Imp_Pxdim_Learn_Rate.learning_rate. rewrite Hlr.
  cbn [call_score_func]. split.
  - intros Hnone.
    rewrite (proj1 (proj2 (proj2 (score_function_cases e (colvec theta) dp))))
      by (auto; cbn; lia).
    reflexivity.
  - intros Hsome Hp. destruct (transfer_ e) as [h|] eqn:Hh; [|contradiction].
    unfold dp. rewrite (score_function_bound e h theta xv yv Hh Hlen), bind_Ok.
    rewrite pre_inversion_mismatch; [reflexivity|].
    now rewrite length_map.
Qed.

Lemma diagonal_schedule_failures_witness :
  learning_rate (init_px_dim_learning_rate (Imp_Experiment_new 2 10 "probit"))
    (colvec [0; 0]) (DataPoint (rowvec [1; 2]) 3) 0 = Throw bad_function_call /\
  learning_rate (init_px_dim_learning_rate (Imp_Experiment_new 3 10 "exp"))
    (colvec [0; 0]) (DataPoint (rowvec [1; 2]) 3) 0 = Throw size_mismatch.
Proof.
  split.
  - exact (proj1 (diagonal_schedule_failures
                    (init_px_dim_learning_rate (Imp_Experiment_new 2 10 "probit"))
                    [0; 0] [1; 2] 3 0 eq_refl eq_refl) eq_refl).
  - apply (proj2 (diagonal_schedule_failures
                    (init_px_dim_learning_rate (Imp_Experiment_new 3 10 "exp"))
                    [0; 0] [1; 2] 3 0 eq_refl eq_refl)).
    + cbn. discriminate.
    + cbn. lia.
Defined.

(** X9.  With the transfer bound to h, the diagonal schedule selected and
    theta_old, x and p of one dimension, the returned matrix has
    1 / (1 + ((y - h(x.theta_old)) x_i)^2) at the diagonal position i and 0
    elsewhere; when the prediction is exact, y = h(x.theta_old), it is the
    identity matrix. *)
Theorem diagonal_schedule_values :
  forall (e : Imp_Experiment) (h : R -> R) (theta xv : list R) (yv : R)
         (t : nat),
    transfer_ e = Some h ->
    lr_ e = lr_pxdim_this ->
    length theta = length xv ->
    p e = length xv ->
    exists M : mat,
      learning_rate e (colvec theta) (DataPoint (rowvec xv) yv) t = Ok M /\
      has_entries M (p e) (p e)
        (fun i j => if (i =? j)%nat
                    then 1 / (1 + ((yv - h (dotl xv theta)) * nth i xv 0) ^ 2)
                    else 0) /\
      (yv = h (dotl xv theta) ->
       forall i j, (i < p e)%nat -> (j < p e)%nat ->
                   at_ M i j = at_ (eye (p e) (p e)) i j).
Proof.
  intros e h theta xv yv t Hh Hlr Hlen Hp.
  pose proof (score_function_bound e h theta xv yv Hh Hlen) as Hscore.
  set (r := yv - h (dotl xv theta)) in *.
  set (gs := map (fun xi => r * xi) xv) in *.
  assert (Hgs : length gs = p e) by (unfold gs; now rewrite length_map).
  destruct (pxdim_learning_rate_entries (score_function e) (colvec theta)
              (DataPoint (rowvec xv) yv) t gs Hscore)
    as (Idiag & M & _ & HI & Hrate & _ & HM).
  rewrite Hgs in HI, Hrate, HM.
  assert (HE : has_entries M (p e) (p e)
                 (fun i j => if (i =? j)%nat
                             then 1 / (1 + (r * nth i xv 0) ^ 2) else 0)).
  { eapply has_entries_ext; [exact HM|].
    intros i j Hi Hj. cbv beta.
    destruct (i =? j)%nat; [|reflexivity].
    destruct HI as (_ & _ & _ & HatI). rewrite HatI, Nat.eqb_refl by assumption.
    assert (Hg : nth i gs 0 = r * nth i xv 0).
    { unfold gs. rewrite (nth_indep _ 0 (r * 0)) by (rewrite length_map; lia).
      now rewrite (map_nth (fun xi => r * xi)). }
    rewrite Hg.
    rewrite invert_above_threshold_ge_one
      by (pose proof (Rle_0_sqr (r * nth i xv 0)) as Hs; unfold Rsqr in Hs; lra).
    f_equal. ring. }
  exists M. split; [unfold learning_rate; rewrite Hlr; exact Hrate|].
  split; [exact HE|].
  intros Hy i j Hi Hj. destruct HE as (_ & _ & _ & Hat).
  rewrite Hat, at_eye by assumption.
  destruct (i =? j)%nat; [|reflexivity].
  replace r with 0 by (unfold r; lra). field.
Qed.

Lemma diagonal_schedule_values_witness :
  exists M : mat,
    learning_rate (init_px_dim_learning_rate (Imp_Experiment_new 2 10 "identity"))
      (colvec [1; 1]) (DataPoint (rowvec [1; 2]) 3) 0 = Ok M /\
    forall i j, (i < 2)%nat -> (j < 2)%nat -> at_ M i j = at_ (eye 2 2) i j.
Proof.
  destruct (diagonal_schedule_values
              (init_px_dim_learning_rate (Imp_Experiment_new 2 10 "identity"))
              Imp_Identity_Transfer.transfer [1; 1] [1; 2] 3 0
              eq_refl eq_refl eq_refl eq_refl) as (M & HM & _ & Hid).
  exists M. split; [exact HM|]. apply Hid.
  unfold Imp_Identity_Transfer.transfer, dotl. simpl. lra.
Defined.

(** ** The root-finding functor: failures, sign and derivatives *)

Lemma Implicit_fn_call_size_mismatch (e : Imp_Experiment) (dp : Imp_DataPoint)
  (theta : mat) (nx a u : R) :
  n_elem theta <> n_elem (x dp) ->
  Implicit_fn_call (Build_implicit_fn a (Build_score_coeff e dp theta nx)) u
  = Throw size_mismatch.
Proof.
  intros Hn. unfold Implicit_fn_call, Get_score_coeff_call, dot.
  cbn [g theta_old datapoint].
  destruct (Nat.eqb_spec (n_elem theta) (n_elem (x dp))); [contradiction|].
  reflexivity.
Qed.

Lemma Implicit_fn_call_unbound (e : Imp_Experiment) (dp : Imp_DataPoint)
  (theta : mat) (nx a u : R) :
  n_elem theta = n_elem (x dp) -> transfer_ e = None ->
  Implicit_fn_call (Build_implicit_fn a (Build_score_coeff e dp theta nx)) u
  = Throw bad_function_call.
Proof.
  intros Hn Hnone. unfold Implicit_fn_call, Get_score_coeff_call, dot, h_transfer.
  cbn [g theta_old datapoint experiment].
  apply Nat.eqb_eq in Hn. rewrite Hn, Hnone. reflexivity.
Qed.

(** X10.  In an experiment a host can build, [Implicit_fn] returns a triple
    exactly when theta_old and x hold the same number of elements and the
    transfer is bound.  A different number of elements throws a size
    error, whatever the binding; an empty transfer throws
    [bad_function_call]. *)
Theorem Implicit_fn_outcomes :
  forall (e : Imp_Experiment) (dp : Imp_DataPoint) (theta : mat) (nx a u : R),
    configured e ->
    let f := Build_implicit_fn a (Build_score_coeff e dp theta nx) in
    (n_elem theta <> n_elem (x dp) -> Implicit_fn_call f u = Throw size_mismatch) /\
    (n_elem theta = n_elem (x dp) -> transfer_ e = None ->
     Implicit_fn_call f u = Throw bad_function_call) /\
    ((exists r, Implicit_fn_call f u = Ok r) <->
     n_elem theta = n_elem (x dp) /\ transfer_ e <> None).
Proof.
  intros e dp theta nx a u He f.
  split; [intros Hn; now apply Implicit_fn_call_size_mismatch|].
  split; [intros Hn Hnone; now apply Implicit_fn_call_unbound|].
  split.
  - intros [r Hr].
    destruct (Nat.eq_dec (n_elem theta) (n_elem (x dp))) as [Hn|Hn].
    + split; [exact Hn|]. intros Hnone. unfold f in Hr.
      rewrite Implicit_fn_call_unbound in Hr by assumption. discriminate.
    + unfold f in Hr. rewrite Implicit_fn_call_size_mismatch in Hr by assumption.
      discriminate.
  - intros [Hn Hb].
    destruct (configured_transfer_cases e He)
      as [(H & _)|[(H & H1 & H2)|[(H & H1 & H2)|(H & H1 & H2)]]];
      [contradiction| | |];
      unfold f; rewrite (Implicit_fn_call_bound e _ _ _ dp theta nx a u H H1 H2 Hn);
      eexists; reflexivity.
Qed.

Lemma Implicit_fn_outcomes_witness :
  Implicit_fn_call
    (Build_implicit_fn 1
       (Build_score_coeff (Imp_Experiment_new 2 10 "exp")
          (DataPoint (rowvec [1; 2]) 3) (colvec [0; 0; 0]) 5)) 0
  = Throw size_mismatch.
Proof.
  apply (proj1 (Implicit_fn_outcomes (Imp_Experiment_new 2 10 "exp")
                  (DataPoint (rowvec [1; 2]) 3) (colvec [0; 0; 0]) 5 1 0
                  (configured_new 2 10 "exp"))).
  cbn. lia.
Defined.

Lemma bound_transfer_monotone (e : Imp_Experiment) (h h1 : R -> R) :
  configured e -> transfer_ e = Some h -> transfer_first_deriv_ e = Some h1 ->
  (forall u1 u2, u1 <= u2 -> h u1 <= h u2) /\ (forall u, 0 <= h1 u).
Proof.
  intros He Hh Hh1.
  destruct (configured_transfer_cases e He)
    as [(H & _)|[(H & H1 & _)|[(H & H1 & _)|(H & H1 & _)]]];
    rewrite H in Hh; try discriminate; rewrite H1 in Hh1;
    injection Hh as <-; injection Hh1 as <-.
  - split; [intros u1 u2 Hu; exact Hu|].
    intros u. unfold Imp_Identity_Transfer.first_derivative. lra.
  - split.
    + intros u1 u2 [Hu| ->]; [|lra]. left. now apply exp_increasing.
    + intros u. left. apply exp_pos.
  - split.
    + intros u1 u2 [Hu| ->]; [|lra]. left. now apply sigmoid_increasing.
    + intros u. unfold Imp_Logistic_Transfer.first_derivative. cbv zeta.
      pose proof (sigmoid_range u) as [H0 Hlt]. left.
      apply Rmult_lt_0_compat; lra.
Qed.

(** X11.  In an experiment a host can build, with a rate a >= 0 and an
    offset coefficient normx >= 0, the first-derivative component of every
    triple is at least 1 (so a Newton or Halley step never divides by
    zero), and the value component grows at least as fast as the query
    point: it is strictly increasing, so it has at most one root. *)
Theorem Implicit_fn_monotone :
  forall (e : Imp_Experiment) (dp : Imp_DataPoint) (theta : mat) (nx a : R),
    configured e -> 0 <= a -> 0 <= nx ->
    let f := Build_implicit_fn a (Build_score_coeff e dp theta nx) in
    (forall u v f1 f2, Implicit_fn_call f u = Ok (v, f1, f2) -> 1 <= f1) /\
    (forall u u' v v' f1 f1' f2 f2',
        Implicit_fn_call f u = Ok (v, f1, f2) ->
        Implicit_fn_call f u' = Ok (v', f1', f2') ->
        u < u' -> u' - u <= v' - v) /\
    (forall u u' f1 f1' f2 f2',
        Implicit_fn_call f u = Ok (0, f1, f2) ->
        Implicit_fn_call f u' = Ok (0, f1', f2') -> u = u').
Proof.
  intros e dp theta nx a He Ha Hnx f.
  assert (Hcall : forall u r, Implicit_fn_call f u = Ok r ->
             exists h h1 h2,
               (forall u1 u2, u1 <= u2 -> h u1 <= h u2) /\
               (forall z, 0 <= h1 z) /\
               forall z, Implicit_fn_call f z
                 = Ok (z - a * (y dp - h (dotl (mem theta) (mem (x dp)) + nx * z)),
                       1 + a * (h1 (dotl (mem theta) (mem (x dp)) + nx * z) * nx),
                       a * (h2 (dotl (mem theta) (mem (x dp)) + nx * z) * nx * nx))).
  { intros u r Hr.
    destruct (Nat.eq_dec (n_elem theta) (n_elem (x dp))) as [Hn|Hn];
      [|unfold f in Hr;
        rewrite Implicit_fn_call_size_mismatch in Hr by assumption;
        discriminate].
    assert (Hb : exists h h1 h2,
               transfer_ e = Some h /\ transfer_first_deriv_ e = Some h1 /\
               transfer_second_deriv_ e = Some h2).
    { destruct (configured_transfer_cases e He)
        as [(H & _)|[(H & H1 & H2)|[(H & H1 & H2)|(H & H1 & H2)]]];
        [|do 3 eexists; repeat split; eassumption ..].
      unfold f in Hr. rewrite Implicit_fn_call_unbound in Hr by assumption.
      discriminate. }
    destruct Hb as (h & h1 & h2 & H & H1 & H2).
    exists h, h1, h2.
    destruct (bound_transfer_monotone e h h1 He H H1) as [Hm Hp].
    split; [exact Hm|]. split; [exact Hp|].
    intros z. exact (Implicit_fn_call_bound e h h1 h2 dp theta nx a z H H1 H2 Hn). }
  assert (Hgrow : forall u u' v v' f1 f1' f2 f2',
             Implicit_fn_call f u = Ok (v, f1, f2) ->
             Implicit_fn_call f u' = Ok (v', f1', f2') ->
             u <= u' -> u' - u <= v' - v).
  { intros u u' v v' f1 f1' f2 f2' Hu Hu' Hlt.
    destruct (Hcall u _ Hu) as (h & h1 & h2 & Hm & _ & Heq).
    rewrite Heq in Hu, Hu'. injection Hu as <- _ _. injection Hu' as <- _ _.
    set (d := dotl (mem theta) (mem (x dp))).
    assert (Hh : h (d + nx * u) <= h (d + nx * u')).
    { apply Hm. pose proof (Rmult_le_compat_l nx u u' Hnx Hlt). lra. }
    pose proof (Rmult_le_compat_l a _ _ Ha Hh). lra. }
  split; [|split].
  - intros u v f1 f2 Hu.
    destruct (Hcall u _ Hu) as (h & h1 & h2 & _ & Hp & Heq).
    rewrite Heq in Hu. injection Hu as _ <- _.
    pose proof (Rmult_le_pos _ _ Ha (Rmult_le_pos _ _ (Hp (dotl (mem theta) (mem (x dp)) + nx * u)) Hnx)).
    lra.
  - intros u u' v v' f1 f1' f2 f2' Hu Hu' Hlt.
    apply (Hgrow u u' v v' f1 f1' f2 f2' Hu Hu'). lra.
  - intros u u' f1 f1' f2 f2' Hu Hu'.
    destruct (Rtotal_order u u') as [Hlt|[Heq|Hgt]]; [|exact Heq|].
    + pose proof (Hgrow u u' 0 0 f1 f1' f2 f2' Hu Hu' ltac:(lra)). lra.
    + pose proof (Hgrow u' u 0 0 f1' f1 f2' f2 Hu' Hu ltac:(lra)). lra.
Qed.

Lemma Implicit_fn_monotone_witness :
  exists v f1 f2 : R,
    Implicit_fn_call
      (Build_implicit_fn (1 / 2)
         (Build_score_coeff (Imp_Experiment_new 2 10 "logistic")
            (DataPoint (rowvec [1; 2]) 1) (colvec [0; 0]) 5)) 0
    = Ok (v, f1, f2) /\ 1 <= f1.
Proof.
  do 3 eexists. split.
  - apply (Implicit_fn_call_bound (Imp_Experiment_new 2 10 "logistic")
             Imp_Logistic_Transfer.transfer
             Imp_Logistic_Transfer.first_derivative
             Imp_Logistic_Transfer.second_derivative); reflexivity.
  - refine (proj1 (Implicit_fn_monotone (Imp_Experiment_new 2 10 "logistic")
                     (DataPoint (rowvec [1; 2]) 1) (colvec [0; 0]) 5 (1 / 2)
                     (configured_new 2 10 "logistic") _ _) 0 _ _ _ _);
      [lra | lra |].
    apply (Implicit_fn_call_bound (Imp_Experiment_new 2 10 "logistic")
             Imp_Logistic_Transfer.transfer
             Imp_Logistic_Transfer.first_derivative
             Imp_Logistic_Transfer.second_derivative); reflexivity.
Defined.

Lemma affine_comp_derivative (h : R -> R) (d nx ksi l : R) :
  derivable_pt_lim h (d + nx * ksi) l ->
  derivable_pt_lim (fun z => h (d + nx * z)) ksi (l * nx).
Proof.
  intros Hh.
  assert (Hin : derivable_pt_lim (fun z => d + nx * z) ksi (0 + nx * 1)).
  { apply (derivable_pt_lim_plus (fun _ => d) (fun z => nx * z));
      [apply derivable_pt_lim_const|].
    exact (derivable_pt_lim_scal id nx ksi 1 (derivable_pt_lim_id ksi)). }
  replace (l * nx) with (l * (0 + nx * 1)) by ring.
  exact (derivable_pt_lim_comp (fun z => d + nx * z) h ksi _ _ Hin Hh).
Qed.

Lemma value_component_derivative (h : R -> R) (a yv d nx ksi l : R) :
  derivable_pt_lim h (d + nx * ksi) l ->
  derivable_pt_lim (fun z => z - a * (yv - h (d + nx * z))) ksi
    (1 + a * (l * nx)).
Proof.
  intros Hh. pose proof (affine_comp_derivative h d nx ksi l Hh) as Hc.
  assert (H1 : derivable_pt_lim (fun z => yv - h (d + nx * z)) ksi (0 - l * nx)).
  { apply (derivable_pt_lim_minus (fun _ => yv) (fun z => h (d + nx * z)));
      [apply derivable_pt_lim_const | exact Hc]. }
  pose proof (derivable_pt_lim_scal _ a ksi _ H1) as H2.
  pose proof (derivable_pt_lim_minus id _ ksi _ _ (derivable_pt_lim_id ksi) H2)
    as H3.
  replace (1 + a * (l * nx)) with (1 - a * (0 - l * nx)) by ring.
  exact H3.
Qed.

Lemma first_component_derivative (h1 : R -> R) (a d nx ksi l : R) :
  derivable_pt_lim h1 (d + nx * ksi) l ->
  derivable_pt_lim (fun z => 1 + a * (h1 (d + nx * z) * nx)) ksi
    (a * (l * nx * nx)).
Proof.
  intros Hh. pose proof (affine_comp_derivative h1 d nx ksi l Hh) as Hc.
  assert (H1 : derivable_pt_lim (fun z => h1 (d + nx * z) * nx) ksi
                 (l * nx * nx + h1 (d + nx * ksi) * 0)).
  { apply (derivable_pt_lim_mult (fun z => h1 (d + nx * z)) (fun _ => nx));
      [exact Hc | apply derivable_pt_lim_const]. }
  pose proof (derivable_pt_lim_scal _ a ksi _ H1) as H2.
  pose proof (derivable_pt_lim_plus (fun _ => 1) _ ksi _ _
                (derivable_pt_lim_const 1 ksi) H2) as H3.
  replace (a * (l * nx * nx))
    with (0 + a * (l * nx * nx + h1 (d + nx * ksi) * 0)) by ring.
  exact H3.
Qed.

(** X12.  In an experiment a host can build, with the transfer bound and
    theta_old and x holding the same number of elements, the first
    component of the triple of [Implicit_fn] is, at every query point, the
    derivative of the value component with respect to the query point. *)
Theorem Implicit_fn_first_is_derivative_of_value :
  forall (e : Imp_Experiment) (dp : Imp_DataPoint) (theta : mat)
         (nx a ksi : R),
    configured e ->
    transfer_ e <> None ->
    n_elem theta = n_elem (x dp) ->
    let f := Build_implicit_fn a (Build_score_coeff e dp theta nx) in
    (exists r, Implicit_fn_call f ksi = Ok r) /\
    derivable_pt_lim (fun z => value_of (Implicit_fn_call f z)) ksi
      (first_of (Implicit_fn_call f ksi)).
Proof.
  intros e dp theta nx a ksi He Hb Hn f.
  assert (Hcases : exists h h1 h2,
             transfer_ e = Some h /\ transfer_first_deriv_ e = Some h1 /\
             transfer_second_deriv_ e = Some h2 /\
             forall u, derivable_pt_lim h u (h1 u)).
  { destruct (configured_transfer_cases e He)
      as [(H & _)|[(H & H1 & H2)|[(H & H1 & H2)|(H & H1 & H2)]]];
      [contradiction| | |]; do 3 eexists;
      (split; [exact H|]); (split; [exact H1|]); (split; [exact H2|]);
      intros u.
    - exact (derivable_pt_lim_id u).
    - exact (derivable_pt_lim_exp u).
    - exact (sigmoid_derivative u). }
  destruct Hcases as (h & h1 & h2 & H & H1 & H2 & Hd).
  pose proof (fun z => Implicit_fn_call_bound e h h1 h2 dp theta nx a z H H1 H2 Hn)
    as Hcall. cbv zeta in Hcall. fold f in Hcall.
  split; [eexists; apply Hcall|].
  rewrite (Hcall ksi). cbn [first_of].
  apply (derivable_pt_lim_ext
           (fun z => z - a * (y dp - h (dotl (mem theta) (mem (x dp)) + nx * z)))).
  - intros z. now rewrite (Hcall z).
  - apply value_component_derivative, Hd.
Qed.

Lemma Implicit_fn_first_is_derivative_of_value_witness :
  let f := Build_implicit_fn (1 / 2)
             (Build_score_coeff (Imp_Experiment_new 2 10 "logistic")
                (DataPoint (rowvec [1; 2]) 1) (colvec [0; 0]) 5) in
  derivable_pt_lim (fun z => value_of (Implicit_fn_call f z)) 0
    (first_of (Implicit_fn_call f 0)).
Proof.
  refine (proj2 (Implicit_fn_first_is_derivative_of_value
                   (Imp_Experiment_new 2 10 "logistic")
                   (DataPoint (rowvec [1; 2]) 1) (colvec [0; 0]) 5 (1 / 2) 0
                   (configured_new 2 10 "logistic") _ eq_refl)).
  cbn. discriminate.
Defined.

(** X13.  For the Identity and the Exponential transfer the second
    component of the triple of [Implicit_fn] is the derivative of the first
    component.  For the Logistic transfer the derivative of the first
    component is the second component less
    at * sigmoid(theta_old.x + normx ksi) * normx^2. *)
Theorem Implicit_fn_second_against_derivative_of_first :
  forall (p0 n_iters0 : nat) (dp : Imp_DataPoint) (theta : mat)
         (nx a ksi : R),
    n_elem theta = n_elem (x dp) ->
    let F := fun name =>
      Build_implicit_fn a
        (Build_score_coeff (Imp_Experiment_new p0 n_iters0 name) dp theta nx) in
    derivable_pt_lim (fun z => first_of (Implicit_fn_call (F "identity"%string) z))
      ksi (second_of (Implicit_fn_call (F "identity"%string) ksi)) /\
    derivable_pt_lim (fun z => first_of (Implicit_fn_call (F "exp"%string) z))
      ksi (second_of (Implicit_fn_call (F "exp"%string) ksi)) /\
    derivable_pt_lim (fun z => first_of (Implicit_fn_call (F "logistic"%string) z))
      ksi
      (second_of (Implicit_fn_call (F "logistic"%string) ksi)
       - a * Imp_Logistic_Transfer.transfer
               (dotl (mem theta) (mem (x dp)) + nx * ksi) * nx ^ 2).
Proof.
  intros p0 n0 dp theta nx a ksi Hn F.
  set (d := dotl (mem theta) (mem (x dp))).
  assert (Hgen : forall name h h1 h2 l,
             transfer_ (Imp_Experiment_new p0 n0 name) = Some h ->
             transfer_first_deriv_ (Imp_Experiment_new p0 n0 name) = Some h1 ->
             transfer_second_deriv_ (Imp_Experiment_new p0 n0 name) = Some h2 ->
             derivable_pt_lim h1 (d + nx * ksi) l ->
             derivable_pt_lim (fun z => first_of (Implicit_fn_call (F name) z))
               ksi (a * (l * nx * nx)) /\
             second_of (Implicit_fn_call (F name) ksi)
             = a * (h2 (d + nx * ksi) * nx * nx)).
  { intros name h h1 h2 l H H1 H2 Hl.
    pose proof (fun z => Implicit_fn_call_bound _ h h1 h2 dp theta nx a z
                           H H1 H2 Hn) as Hcall.
    cbv zeta in Hcall. fold d in Hcall. split.
    - apply (derivable_pt_lim_ext
               (fun z => 1 + a * (h1 (d + nx * z) * nx))).
      + intros z. unfold F. now rewrite (Hcall z).
      + now apply first_component_derivative.
    - unfold F. now rewrite (Hcall ksi). }
  split; [|split].
  - destruct (Hgen "identity"%string _ _ _ 0 eq_refl eq_refl eq_refl
                (derivable_pt_lim_const 1 (d + nx * ksi))) as [Hd Hs].
    rewrite Hs. exact Hd.
  - destruct (Hgen "exp"%string _ _ _ _ eq_refl eq_refl eq_refl
                (derivable_pt_lim_exp (d + nx * ksi))) as [Hd Hs].
    rewrite Hs. exact Hd.
  - destruct (Hgen "logistic"%string _ _ _ _ eq_refl eq_refl eq_refl
                (logistic_first_derivative_derivative (d + nx * ksi)))
      as [Hd Hs].
    rewrite Hs. unfold Imp_Logistic_Transfer.transfer.
    match goal with
    | |- derivable_pt_lim _ _ ?l =>
        replace l with
          (a * ((Imp_Logistic_Transfer.second_derivative (d + nx * ksi)
                 - Imp_Logistic_Transfer.sigmoid (d + nx * ksi)) * nx * nx))
          by ring
    end.
    exact Hd.
Qed.

Lemma Implicit_fn_second_against_derivative_of_first_witness :
  let f := Build_implicit_fn (1 / 2)
             (Build_score_coeff (Imp_Experiment_new 2 10 "exp")
                (DataPoint (rowvec [1; 2]) 1) (colvec [0; 0]) 5) in
  derivable_pt_lim (fun z => first_of (Implicit_fn_call f z)) 0
    (second_of (Implicit_fn_call f 0)).
Proof.
  exact (proj1 (proj2 (Implicit_fn_second_against_derivative_of_first 2 10
                         (DataPoint (rowvec [1; 2]) 1) (colvec [0; 0]) 5
                         (1 / 2) 0 eq_refl))).
Defined.

(** ** The transfer of a matrix *)

Lemma loop_upto (n k : nat) (body : mat -> nat -> result mat)
  (F : nat -> R -> R) (r0 : mat) :
  length (mem r0) = n -> (k <= n)%nat ->
  (forall r i, (i < k)%nat ->
      n_rows r = n_rows r0 -> n_cols r = n_cols r0 -> length (mem r) = n ->
      body r i = Ok (Mat (n_rows r) (n_cols r)
                         (upd i (F i (nth i (mem r) 0)) (mem r)))) ->
  for_loop k body r0
  = Ok (Mat (n_rows r0) (n_cols r0)
          (map (fun i => if (i <? k)%nat then F i (nth i (mem r0) 0)
                         else nth i (mem r0) 0)
               (seq 0 n))).
Proof.
  intros Hlen Hk Hbody. unfold for_loop.
  induction k as [|k IH].
  - simpl. f_equal. rewrite <- Hlen, map_nth_seq. now rewrite mat_eta.
  - rewrite seq_S, fold_left_app, IH by (try lia; intros; apply Hbody; auto; lia).
    simpl.
    rewrite Hbody; try reflexivity; try lia;
      [|cbn [mem]; now rewrite length_map, length_seq].
    cbn [n_rows n_cols mem]. do 2 f_equal.
    rewrite upd_map_seq. apply map_ext_in. intros i Hi.
    apply in_seq in Hi.
    rewrite (nth_map_seq _ n k 0) by lia.
    rewrite Nat.ltb_irrefl.
    destruct (Nat.eqb_spec i k) as [->|Hne].
    + replace (k <? S k)%nat with true by (symmetry; apply Nat.ltb_lt; lia).
      reflexivity.
    + destruct (Nat.ltb_spec i k), (Nat.ltb_spec i (S k)); auto; lia.
Qed.

Lemma loop_throws_at_first (n : nat) (body : mat -> nat -> result mat)
  (r0 : mat) (err : exn) :
  (1 <= n)%nat -> body r0 0%nat = Throw err -> for_loop n body r0 = Throw err.
Proof.
  intros Hn Hb. unfold for_loop. destruct n as [|n]; [lia|].
  cbn [seq fold_left bind]. rewrite Hb.
  generalize (seq 1 n). intros l. induction l as [|i l IH]; simpl; auto.
Qed.

Lemma first_column_loop (f : R -> R) (u : mat) :
  wf u -> (1 <= n_cols u)%nat ->
  for_loop (n_rows u)
    (fun res i => v <- elem2 u i 0 ;; set_elem2 res i 0 (f v)) u
  = Ok (Mat (n_rows u) (n_cols u)
          (map (fun i => if (i <? n_rows u)%nat then f (nth i (mem u) 0)
                         else nth i (mem u) 0)
               (seq 0 (n_elem u)))).
Proof.
  intros Hwf Hc.
  apply (loop_upto (n_elem u) (n_rows u) _ (fun i _ => f (nth i (mem u) 0)) u).
  - exact Hwf.
  - unfold n_elem. nia.
  - intros r i Hi Hr Hcr Hlen. unfold elem2, set_elem2, set_at, at_.
    rewrite Hr, Hcr.
    replace ((i <? n_rows u)%nat) with true by (symmetry; now apply Nat.ltb_lt).
    replace ((0 <? n_cols u)%nat) with true by (symmetry; now apply Nat.ltb_lt).
    cbn [andb bind]. replace (i + 0 * n_rows u)%nat with i by lia.
    reflexivity.
Qed.

Lemma first_column_entries (f : R -> R) (u : mat) :
  wf u -> (1 <= n_cols u)%nat ->
  exists res,
    for_loop (n_rows u)
      (fun res i => v <- elem2 u i 0 ;; set_elem2 res i 0 (f v)) u = Ok res /\
    has_entries res (n_rows u) (n_cols u)
      (fun i j => if (j =? 0)%nat then f (at_ u i 0) else at_ u i j).
Proof.
  intros Hwf Hc. rewrite first_column_loop by assumption.
  eexists. split; [reflexivity|]. repeat split.
  - cbn [mem]. now rewrite length_map, length_seq.
  - intros i j Hi Hj. unfold at_ at 1. cbn [n_rows mem].
    pose proof (index_in_range _ _ i j Hi Hj) as Hidx.
    rewrite nth_map_seq by exact Hidx.
    destruct (Nat.eqb_spec j 0) as [->|Hj0].
    + replace (i + 0 * n_rows u)%nat with i by lia.
      replace (i <? n_rows u)%nat with true by (symmetry; now apply Nat.ltb_lt).
      unfold at_. now replace (i + 0 * n_rows u)%nat with i by lia.
    + destruct (Nat.ltb_spec (i + j * n_rows u) (n_rows u)); [nia|].
      reflexivity.
Qed.

Lemma first_column_colvec (f : R -> R) (l : list R) :
  for_loop (n_rows (colvec l))
    (fun res i => v <- elem2 (colvec l) i 0 ;; set_elem2 res i 0 (f v))
    (colvec l)
  = Ok (colvec (map f l)).
Proof.
  rewrite first_column_loop by (unfold wf, n_elem; cbn; lia).
  unfold colvec, n_elem. cbn [n_rows n_cols mem].
  rewrite length_map, Nat.mul_1_r. do 2 f_equal.
  rewrite <- (map_nth_seq (map f l) 0), length_map.
  apply map_ext_in. intros i Hi. apply in_seq in Hi.
  replace (i <? length l)%nat with true by (symmetry; apply Nat.ltb_lt; lia).
  rewrite (nth_indep (map f l) 0 (f 0)) by (rewrite length_map; lia).
  now rewrite map_nth.
Qed.

(** X14.  On a column vector the Exponential and the Logistic transfer of
    a matrix apply the scalar transfer to every element. *)
Theorem transfer_mat_column_vector :
  forall l : list R,
    Imp_Exp_Transfer_transfer_mat (colvec l)
    = Ok (colvec (map Imp_Exp_Transfer.transfer l)) /\
    Imp_Logistic_Transfer_transfer_mat (colvec l)
    = Ok (colvec (map Imp_Logistic_Transfer.transfer l)).
Proof.
  intros l. split; apply first_column_colvec.
Qed.

(** X15.  On a matrix with at least one column, stored in full, the
    Exponential and the Logistic transfer of a matrix keep the shape,
    apply the scalar transfer to column 0 and leave every other column as
    it is. *)
Theorem transfer_mat_first_column_only :
  forall u : mat,
    wf u -> (1 <= n_cols u)%nat ->
    (exists res,
        Imp_Exp_Transfer_transfer_mat u = Ok res /\
        has_entries res (n_rows u) (n_cols u)
          (fun i j => if (j =? 0)%nat then Imp_Exp_Transfer.transfer (at_ u i 0)
                      else at_ u i j)) /\
    (exists res,
        Imp_Logistic_Transfer_transfer_mat u = Ok res /\
        has_entries res (n_rows u) (n_cols u)
          (fun i j => if (j =? 0)%nat
                      then Imp_Logistic_Transfer.transfer (at_ u i 0)
                      else at_ u i j)).
Proof.
  intros u Hwf Hc. split; now apply first_column_entries.
Qed.

Lemma transfer_mat_first_column_only_witness :
  exists res,
    Imp_Exp_Transfer_transfer_mat (Mat 2 2 [1; 2; 3; 4]) = Ok res /\
    has_entries res 2 2
      (fun i j => if (j =? 0)%nat
                  then Imp_Exp_Transfer.transfer (at_ (Mat 2 2 [1; 2; 3; 4]) i 0)
                  else at_ (Mat 2 2 [1; 2; 3; 4]) i j).
Proof.
  exact (proj1 (transfer_mat_first_column_only (Mat 2 2 [1; 2; 3; 4])
                  eq_refl (le_S _ _ (le_n 1)))).
Defined.

(** X16.  The Exponential and the Logistic transfer of a matrix return a
    matrix without rows unchanged, and throw an index error on a matrix
    with rows but no column. *)
Theorem transfer_mat_degenerate_shapes :
  forall u : mat,
    (n_rows u = 0%nat ->
     Imp_Exp_Transfer_transfer_mat u = Ok u /\
     Imp_Logistic_Transfer_transfer_mat u = Ok u) /\
    ((1 <= n_rows u)%nat -> n_cols u = 0%nat ->
     Imp_Exp_Transfer_transfer_mat u = Throw index_out_of_bounds /\
     Imp_Logistic_Transfer_transfer_mat u = Throw index_out_of_bounds).
Proof.
  intros u. split.
  - intros Hr. unfold Imp_Exp_Transfer_transfer_mat,
      Imp_Logistic_Transfer_transfer_mat. rewrite Hr. split; reflexivity.
  - intros Hr Hc.
    split; apply loop_throws_at_first; try assumption;
      unfold elem2; rewrite Hc, andb_false_r; reflexivity.
Qed.

Lemma transfer_mat_degenerate_shapes_witness :
  Imp_Exp_Transfer_transfer_mat mat_empty = Ok mat_empty /\
  Imp_Logistic_Transfer_transfer_mat (Mat 3 0 []) = Throw index_out_of_bounds.
Proof.
  split.
  - exact (proj1 (proj1 (transfer_mat_degenerate_shapes mat_empty) eq_refl)).
  - exact (proj2 (proj2 (transfer_mat_degenerate_shapes (Mat 3 0 []))
                    (le_S _ _ (le_S _ _ (le_n 1))) eq_refl)).
Defined.

(** ** The model families: values, signs and failures *)

Lemma Rsum_upto_nonneg (n : nat) (f : nat -> R) :
  (forall i, (i < n)%nat -> 0 <= f i) -> 0 <= Rsum_upto n f.
Proof.
  intros H. unfold Rsum_upto.
  assert (Hall : forall v, In v (map f (seq 0 n)) -> 0 <= v).
  { intros v Hv. apply in_map_iff in Hv as [i [<- Hi]].
    apply in_seq in Hi. apply H. lia. }
  induction (map f (seq 0 n)) as [|a l IH]; simpl; [lra|].
  pose proof (Hall a (or_introl eq_refl)).
  pose proof (IH (fun v Hv => Hall v (or_intror Hv))). lra.
Qed.

Lemma Rsum_as_upto (l : list R) :
  Rsum l = Rsum_upto (length l) (fun i => nth i l 0).
Proof. unfold Rsum_upto. now rewrite map_nth_seq. Qed.

Lemma fold_after_throw (body : mat -> nat -> result mat) (l : list nat)
  (err : exn) :
  fold_left (fun acc i => s' <- acc ;; body s' i) l (Throw err) = Throw err.
Proof. induction l as [|i l IH]; simpl; auto. Qed.

Lemma loop_throws_at (n k m : nat) (body : mat -> nat -> result mat)
  (F : nat -> R -> R) (r0 : mat) (err : exn) :
  length (mem r0) = m -> (k <= m)%nat -> (k < n)%nat ->
  (forall r i, (i < k)%nat ->
      n_rows r = n_rows r0 -> n_cols r = n_cols r0 -> length (mem r) = m ->
      body r i = Ok (Mat (n_rows r) (n_cols r)
                         (upd i (F i (nth i (mem r) 0)) (mem r)))) ->
  (forall r, n_rows r = n_rows r0 -> n_cols r = n_cols r0 ->
             length (mem r) = m -> body r k = Throw err) ->
  for_loop n body r0 = Throw err.
Proof.
  intros Hlen Hkm Hkn Hok Hthrow.
  pose proof (loop_upto m k body F r0 Hlen Hkm Hok) as Hpre.
  unfold for_loop in *.
  replace n with (k + S (n - k - 1))%nat by lia.
  rewrite seq_app, fold_left_app, Hpre. cbn [seq fold_left bind Nat.add].
  rewrite Hthrow; [apply fold_after_throw | reflexivity | reflexivity |].
  cbn [mem]. now rewrite length_map, length_seq.
Qed.

(** X17.  For y, mu and wt of equal length the Gaussian deviance is the sum
    of w_i (y_i - mu_i)^2; it is not negative when no weight is. *)
Theorem gaussian_deviance_weighted_squares :
  forall ys mus ws : list R,
    length mus = length ys -> length ws = length ys ->
    Imp_Gaussian.deviance (colvec ys) (colvec mus) (colvec ws)
    = Ok (Rsum_upto (length ys) (fun i =>
            nth i ws 0 * (nth i ys 0 - nth i mus 0) ^ 2)) /\
    ((forall w, In w ws -> 0 <= w) ->
     0 <= Rsum_upto (length ys) (fun i =>
            nth i ws 0 * (nth i ys 0 - nth i mus 0) ^ 2)).
Proof.
  intros ys mus ws Hmu Hw. split.
  - rewrite gaussian_deviance_eq by assumption. f_equal.
    rewrite Rsum_as_upto.
    assert (Hd : length (zip_with Rminus ys mus) = length ys)
      by (apply length_zip_with; congruence).
    assert (Hs : length (zip_with Rmult (zip_with Rminus ys mus)
                           (zip_with Rminus ys mus)) = length ys)
      by (rewrite length_zip_with; congruence).
    rewrite length_zip_with, Hw by congruence.
    apply Rsum_map_ext. intros i Hi. apply in_seq in Hi.
    rewrite nth_zip_with by (try congruence; lia).
    rewrite nth_zip_with by (try congruence; lia).
    rewrite nth_zip_with by (try congruence; lia).
    ring.
  - intros Hpos. apply Rsum_upto_nonneg. intros i Hi.
    apply Rmult_le_pos; [apply Hpos, nth_In; lia|].
    apply pow2_ge_0.
Qed.

Lemma gaussian_deviance_weighted_squares_witness :
  Imp_Gaussian.deviance (colvec [1; 2]) (colvec [0; 4]) (colvec [1; 3])
  = Ok (Rsum_upto 2 (fun i =>
          nth i [1; 3] 0 * (nth i [1; 2] 0 - nth i [0; 4] 0) ^ 2)).
Proof.
  exact (proj1 (gaussian_deviance_weighted_squares [1; 2] [0; 4] [1; 3]
                  eq_refl eq_refl)).
Defined.

(** X18.  The Gaussian deviance throws a size error when mu or wt has not
    the length of y. *)
Theorem gaussian_deviance_size_mismatch :
  forall ys mus ws : list R,
    length mus <> length ys \/ length ws <> length ys ->
    Imp_Gaussian.deviance (colvec ys) (colvec mus) (colvec ws)
    = Throw size_mismatch.
Proof.
  intros ys mus ws H. unfold Imp_Gaussian.deviance, mat_sub, schur.
  destruct (Nat.eq_dec (length mus) (length ys)) as [Hmu|Hmu].
  - destruct H as [H|H]; [contradiction|].
    rewrite elementwise_colvec, !bind_Ok by assumption.
    unfold elementwise, same_size. cbn [colvec n_rows n_cols mem].
    rewrite !Nat.eqb_refl. cbn [andb bind n_rows n_cols].
    destruct (Nat.eqb_spec (length ws) (length ys)); [contradiction|].
    reflexivity.
  - unfold elementwise, same_size. cbn [colvec n_rows n_cols].
    destruct (Nat.eqb_spec (length ys) (length mus)); [congruence|].
    reflexivity.
Qed.

Lemma gaussian_deviance_size_mismatch_witness :
  Imp_Gaussian.deviance (colvec [1; 2]) (colvec [1; 2]) (colvec [1])
  = Throw size_mismatch.
Proof.
  apply gaussian_deviance_size_mismatch. right. cbn. lia.
Defined.

Lemma elem_colvec_out (l : list R) (i : nat) :
  (length l <= i)%nat -> elem (colvec l) i = Throw index_out_of_bounds.
Proof.
  intros Hi. unfold elem, n_elem. cbn [colvec n_rows n_cols mem].
  rewrite Nat.mul_1_r. destruct (Nat.ltb_spec i (length l)); [lia | reflexivity].
Qed.

Lemma poisson_body_step (ys mus ws : list R) (r : mat) (i : nat) :
  (i < length ys)%nat -> (i < length mus)%nat -> (i < length ws)%nat ->
  n_cols r = 1%nat -> (i < n_rows r)%nat ->
  Imp_Poisson.deviance_body (colvec ys) (colvec mus) (colvec ws) r i
  = Ok (Mat (n_rows r) (n_cols r)
          (upd i ((fun i old =>
                     if Rgt_dec (nth i ys 0) 0
                     then nth i ws 0
                          * (nth i ys 0 * ln (nth i ys 0 / nth i mus 0)
                             - (nth i ys 0 - nth i mus 0))
                     else old) i (nth i (mem r) 0)) (mem r))).
Proof.
  intros Hy Hm Hw Hc Hr. unfold Imp_Poisson.deviance_body.
  rewrite elem_colvec, bind_Ok by lia. cbv beta.
  destruct (Rgt_dec (nth i ys 0) 0).
  - repeat (rewrite elem_colvec by lia; rewrite bind_Ok; cbv beta).
    apply set_elem_col; lia.
  - now rewrite upd_nth_id, mat_eta.
Qed.

Lemma poisson_deviance_prefix (ys mus ws : list R) :
  length ws = length mus -> (length mus <= length ys)%nat ->
  Imp_Poisson.deviance (colvec ys) (colvec mus) (colvec ws)
  = Ok (Rsum_upto (length mus) (fun i =>
          2 * (if Rgt_dec (nth i ys 0) 0
               then nth i ws 0
                    * (nth i ys 0 * ln (nth i ys 0 / nth i mus 0)
                       - (nth i ys 0 - nth i mus 0))
               else nth i mus 0 * nth i ws 0))).
Proof.
  intros Hw Hy. unfold Imp_Poisson.deviance, schur.
  rewrite elementwise_colvec by assumption.
  rewrite bind_Ok, vec_of_col, bind_Ok.
  unfold n_elem. cbn [n_rows n_cols]. rewrite Nat.mul_1_r.
  rewrite (loop_upto (length mus) (length mus) _
             (fun i old =>
                if Rgt_dec (nth i ys 0) 0
                then nth i ws 0
                     * (nth i ys 0 * ln (nth i ys 0 / nth i mus 0)
                        - (nth i ys 0 - nth i mus 0))
                else old)).
  - rewrite bind_Ok. f_equal. unfold sum, scale_l, Rsum_upto.
    cbn [mem]. rewrite map_map. apply Rsum_map_ext.
    intros i Hi. apply in_seq in Hi.
    replace (i <? length mus)%nat with true by (symmetry; apply Nat.ltb_lt; lia).
    rewrite nth_zip_with by lia. reflexivity.
  - cbn [mem]. rewrite length_zip_with; congruence.
  - lia.
  - intros r i Hi Hr Hc Hlen. cbn [n_rows n_cols] in Hr, Hc.
    apply poisson_body_step; lia.
Qed.

(** X19.  The Poisson deviance throws a size error when mu and wt differ in
    length, whatever y is; with mu and wt of one length it throws an index
    error when y is shorter, and when y is longer it reads only the first
    elements of y, as many as mu has. *)
Theorem poisson_deviance_sizes :
  forall ys mus ws : list R,
    (length ws <> length mus ->
     Imp_Poisson.deviance (colvec ys) (colvec mus) (colvec ws)
     = Throw size_mismatch) /\
    (length ws = length mus -> (length ys < length mus)%nat ->
     Imp_Poisson.deviance (colvec ys) (colvec mus) (colvec ws)
     = Throw index_out_of_bounds) /\
    (length ws = length mus -> (length mus <= length ys)%nat ->
     Imp_Poisson.deviance (colvec ys) (colvec mus) (colvec ws)
     = Imp_Poisson.deviance (colvec (firstn (length mus) ys)) (colvec mus)
         (colvec ws)).
Proof.
  intros ys mus ws. split; [|split].
  - intros Hw. unfold Imp_Poisson.deviance, schur, elementwise, same_size.
    cbn [colvec n_rows n_cols].
    destruct (Nat.eqb_spec (length mus) (length ws)); [congruence|].
    reflexivity.
  - intros Hw Hy. unfold Imp_Poisson.deviance, schur.
    rewrite elementwise_colvec by assumption.
    rewrite bind_Ok, vec_of_col, bind_Ok.
    unfold n_elem. cbn [n_rows n_cols]. rewrite Nat.mul_1_r.
    rewrite (loop_throws_at (length mus) (length ys) (length mus) _
               (fun i old =>
                  if Rgt_dec (nth i ys 0) 0
                  then nth i ws 0
                       * (nth i ys 0 * ln (nth i ys 0 / nth i mus 0)
                          - (nth i ys 0 - nth i mus 0))
                  else old) _ index_out_of_bounds); try reflexivity; try lia.
    + cbn [mem]. rewrite length_zip_with; congruence.
    + intros r i Hi Hr Hc Hlen. cbn [n_rows n_cols] in Hr, Hc.
      apply poisson_body_step; lia.
    + intros r _ _ _. unfold Imp_Poisson.deviance_body.
      now rewrite elem_colvec_out.
  - intros Hw Hy.
    rewrite (poisson_deviance_prefix ys) by assumption.
    rewrite (poisson_deviance_prefix (firstn (length mus) ys))
      by (try assumption; rewrite length_firstn; lia).
    f_equal. apply Rsum_map_ext. intros i Hi. apply in_seq in Hi.
    rewrite nth_firstn.
    replace (i <? length mus)%nat with true by (symmetry; apply Nat.ltb_lt; lia).
    reflexivity.
Qed.

Lemma poisson_deviance_sizes_witness :
  Imp_Poisson.deviance (colvec [1]) (colvec [1; 2]) (colvec [1; 1])
  = Throw index_out_of_bounds /\
  Imp_Poisson.deviance (colvec [1; 2; 3]) (colvec [1; 2]) (colvec [1; 1])
  = Imp_Poisson.deviance (colvec (firstn 2 [1; 2; 3])) (colvec [1; 2])
      (colvec [1; 1]).
Proof.
  split.
  - apply (proj1 (proj2 (poisson_deviance_sizes [1] [1; 2] [1; 1])));
      [reflexivity | cbn; lia].
  - apply (proj2 (proj2 (poisson_deviance_sizes [1; 2; 3] [1; 2] [1; 1])));
      [reflexivity | cbn; lia].
Defined.

Lemma binomial_body_step (ys mus ws : list R) (r : mat) (i : nat) :
  (i < length ys)%nat -> (i < length mus)%nat -> (i < length ws)%nat ->
  n_cols r = 1%nat -> (i < n_rows r)%nat ->
  Imp_Binomial.deviance_body (colvec ys) (colvec mus) (colvec ws) r i
  = Ok (Mat (n_rows r) (n_cols r)
          (upd i ((fun i (_ : R) =>
                     2 * nth i ws 0
                     * (Imp_Binomial.y_log_y (nth i ys 0) (nth i mus 0)
                        + Imp_Binomial.y_log_y (1 - nth i ys 0)
                            (1 - nth i mus 0))) i (nth i (mem r) 0)) (mem r))).
Proof.
  intros Hy Hm Hw Hc Hr. unfold Imp_Binomial.deviance_body.
  repeat (rewrite elem_colvec by lia; rewrite bind_Ok; cbv beta).
  apply set_elem_col; lia.
Qed.

Lemma binomial_body_throws (ys mus ws : list R) (r : mat) (i : nat) :
  (length ws <= i)%nat \/ (length mus <= i)%nat -> (i < length ys)%nat ->
  Imp_Binomial.deviance_body (colvec ys) (colvec mus) (colvec ws) r i
  = Throw index_out_of_bounds.
Proof.
  intros H Hy. unfold Imp_Binomial.deviance_body.
  destruct (Nat.le_gt_cases (length ws) i) as [Hw|Hw].
  - now rewrite elem_colvec_out.
  - destruct H as [H|H]; [lia|].
    rewrite (elem_colvec ws), bind_Ok by lia. cbv beta.
    rewrite (elem_colvec ys), bind_Ok by lia. cbv beta.
    now rewrite elem_colvec_out.
Qed.

(** X21.  The Binomial deviance runs over the elements of y.  When mu and
    wt are at least as long as y, it is the sum of
    2 w_i (ylogy(y_i, mu_i) + ylogy(1 - y_i, 1 - mu_i)) over them, whatever
    the result vector holds before it is filled; when mu or wt is shorter
    than y, it throws an index error. *)
Theorem binomial_deviance_sizes :
  forall (junk : nat -> R) (ys mus ws : list R),
    ((length ys <= length mus)%nat -> (length ys <= length ws)%nat ->
     Imp_Binomial.deviance junk (colvec ys) (colvec mus) (colvec ws)
     = Ok (Rsum_upto (length ys) (fun i =>
             2 * nth i ws 0
             * (Imp_Binomial.y_log_y (nth i ys 0) (nth i mus 0)
                + Imp_Binomial.y_log_y (1 - nth i ys 0) (1 - nth i mus 0))))) /\
    ((length mus < length ys)%nat \/ (length ws < length ys)%nat ->
     Imp_Binomial.deviance junk (colvec ys) (colvec mus) (colvec ws)
     = Throw index_out_of_bounds).
Proof.
  intros junk ys mus ws.
  assert (Hr0 : length (mem (mat_init (length ys) 1 (fun i _ => junk i)))
                = length ys).
  { etransitivity; [apply wf_init|]. unfold n_elem.
    cbn [mat_init n_rows n_cols]. lia. }
  split.
  - intros Hmu Hw. unfold Imp_Binomial.deviance, vec_uninit.
    unfold n_elem. cbn [colvec n_rows n_cols mat_init]. rewrite !Nat.mul_1_r.
    rewrite (loop_upto (length ys) (length ys) _
               (fun i _ =>
                  2 * nth i ws 0
                  * (Imp_Binomial.y_log_y (nth i ys 0) (nth i mus 0)
                     + Imp_Binomial.y_log_y (1 - nth i ys 0)
                         (1 - nth i mus 0)))).
    + rewrite bind_Ok. f_equal. unfold sum, Rsum_upto. cbn [mem].
      apply Rsum_map_ext. intros i Hi. apply in_seq in Hi.
      replace (i <? length ys)%nat with true
        by (symmetry; apply Nat.ltb_lt; lia).
      reflexivity.
    + exact Hr0.
    + lia.
    + intros r i Hi Hr Hc Hlen. unfold mat_init in Hr, Hc.
      cbn [n_rows n_cols] in Hr, Hc.
      apply binomial_body_step; lia.
  - intros Hshort. unfold Imp_Binomial.deviance, vec_uninit.
    unfold n_elem. cbn [colvec n_rows n_cols mat_init]. rewrite !Nat.mul_1_r.
    rewrite (loop_throws_at (length ys) (Nat.min (length mus) (length ws))
               (length ys) _
               (fun i _ =>
                  2 * nth i ws 0
                  * (Imp_Binomial.y_log_y (nth i ys 0) (nth i mus 0)
                     + Imp_Binomial.y_log_y (1 - nth i ys 0)
                         (1 - nth i mus 0)))
               _ index_out_of_bounds); try reflexivity; try lia;
      try exact Hr0.
    + intros r i Hi Hr Hc Hlen. unfold mat_init in Hr, Hc.
      cbn [n_rows n_cols] in Hr, Hc.
      apply binomial_body_step; lia.
    + intros r _ _ _. apply binomial_body_throws; lia.
Qed.

Lemma binomial_deviance_sizes_witness :
  Imp_Binomial.deviance (fun _ => 7) (colvec [1 / 2; 1 / 4]) (colvec [1 / 2])
    (colvec [1; 1]) = Throw index_out_of_bounds.
Proof.
  apply (proj2 (binomial_deviance_sizes (fun _ => 7) [1 / 2; 1 / 4] [1 / 2]
                  [1; 1])).
  left. cbn. lia.
Defined.

(** ** The score coefficient and its derivatives *)

(** X23.  In an experiment a host can build, with the transfer bound and
    theta_old and x holding the same number of elements,
    [Get_score_coeff::first_derivative] is the derivative of the negated
    [operator()]: the derivative of [operator()] at ksi is
    [- first_derivative(ksi)]. *)
Theorem Get_score_coeff_first_derivative_sign :
  forall (e : Imp_Experiment) (dp : Imp_DataPoint) (theta : mat) (nx ksi : R),
    configured e ->
    transfer_ e <> None ->
    n_elem theta = n_elem (x dp) ->
    let gsc := Build_score_coeff e dp theta nx in
    exists g1 : R,
      Get_score_coeff_first_derivative gsc ksi = Ok g1 /\
      derivable_pt_lim (fun z => scalar_of (Get_score_coeff_call gsc z)) ksi
        (- g1).
Proof.
  intros e dp theta nx ksi He Hb Hn gsc.
  assert (Hcases : exists h h1,
             transfer_ e = Some h /\ transfer_first_deriv_ e = Some h1 /\
             forall u, derivable_pt_lim h u (h1 u)).
  { destruct (configured_transfer_cases e He)
      as [(H & _)|[(H & H1 & _)|[(H & H1 & _)|(H & H1 & _)]]];
      [contradiction| | |]; do 2 eexists;
      (split; [exact H|]); (split; [exact H1|]); intros u.
    - exact (derivable_pt_lim_id u).
    - exact (derivable_pt_lim_exp u).
    - exact (sigmoid_derivative u). }
  destruct Hcases as (h & h1 & H & H1 & Hd).
  set (d := dotl (mem theta) (mem (x dp))).
  assert (Hcall : forall z,
             Get_score_coeff_call gsc z = Ok (y dp - h (d + nx * z))).
  { intros z. unfold Get_score_coeff_call, h_transfer, dot, gsc.
    cbn [theta_old datapoint experiment normx].
    apply Nat.eqb_eq in Hn. now rewrite Hn, H. }
  exists (h1 (d + nx * ksi) * nx). split.
  - unfold Get_score_coeff_first_derivative, h_first_derivative, dot, gsc.
    cbn [theta_old datapoint experiment normx].
    apply Nat.eqb_eq in Hn. now rewrite Hn, H1.
  - apply (derivable_pt_lim_ext (fun z => y dp - h (d + nx * z))).
    + intros z. now rewrite Hcall.
    + replace (- (h1 (d + nx * ksi) * nx)) with (0 - h1 (d + nx * ksi) * nx)
        by ring.
      apply (derivable_pt_lim_minus (fun _ => y dp) (fun z => h (d + nx * z)));
        [apply derivable_pt_lim_const|].
      apply affine_comp_derivative, Hd.
Qed.

Lemma Get_score_coeff_first_derivative_sign_witness :
  let gsc := Build_score_coeff (Imp_Experiment_new 2 10 "exp")
               (DataPoint (rowvec [1; 2]) 1) (colvec [0; 0]) 5 in
  exists g1 : R,
    Get_score_coeff_first_derivative gsc 0 = Ok g1 /\
    derivable_pt_lim (fun z => scalar_of (Get_score_coeff_call gsc z)) 0 (- g1).
Proof.
  refine (Get_score_coeff_first_derivative_sign
            (Imp_Experiment_new 2 10 "exp") (DataPoint (rowvec [1; 2]) 1)
            (colvec [0; 0]) 5 0 (configured_new 2 10 "exp") _ eq_refl).
  cbn. discriminate.
Defined.

(** ** The uniform schedule: sign and bound *)

(** X24.  For alpha > 0, c > 0, gamma > 0 and scale > 0 every diagonal
    entry of the uniform schedule is positive and at most scale gamma, at
    every iteration. *)
Theorem uniform_schedule_rate_bounds :
  forall (theta : mat) (dp : Imp_DataPoint) (gamma alpha c scale : R)
         (t p0 i : nat),
    0 < alpha -> 0 < c -> 0 < gamma -> 0 < scale -> (i < p0)%nat ->
    0 < at_ (Imp_Unidim_Learn_Rate.learning_rate theta dp t p0
               gamma alpha c scale) i i
      <= scale * gamma.
Proof.
  intros theta dp gamma alpha c scale t p0 i Ha Hc Hg Hs Hi.
  rewrite at_unidim, Nat.eqb_refl by assumption. split.
  - unfold Spec.uniform_rate. apply Rmult_lt_0_compat.
    + apply Rmult_lt_0_compat; lra.
    + unfold Rpower. apply exp_pos.
  - pose proof (uniform_rate_antitone gamma alpha c scale 0 t Ha Hc
                  ltac:(lra) ltac:(lra) ltac:(lia)) as H.
    unfold Spec.uniform_rate in H at 2. simpl INR in H.
    rewrite Rmult_0_r, Rplus_0_r, Rpower_base_one in H. lra.
Qed.

Lemma uniform_schedule_rate_bounds_witness :
  0 < at_ (Imp_Unidim_Learn_Rate.learning_rate mat_empty (DataPoint mat_empty 0)
             7 2 2 1 1 3) 1 1
    <= 3 * 2.
Proof.
  apply uniform_schedule_rate_bounds; try lra. lia.
Defined.

(** ** The output of a run *)

(** X25.  An output constructed for a data set has one column per
    observation and one row per variable.  With at least one observation
    (and a count that fits a uword) [last_estimate] returns a column of as
    many elements as the data has variables; for a data set without
    observations it throws an index error. *)
Theorem constructed_output_last_estimate :
  forall (uword_bits : Z) (junk : nat -> nat -> R) (data : Imp_Dataset),
    (0 < uword_bits)%Z ->
    let o := Imp_OnlineOutput_of junk data in
    n_rows (estimates o) = n_cols (X data) /\
    n_cols (estimates o) = n_rows (X data) /\
    ((1 <= n_rows (X data))%nat ->
     (Z.of_nat (n_rows (X data)) < 2 ^ uword_bits)%Z ->
     exists c, last_estimate uword_bits o = Ok c /\
               n_rows c = n_cols (X data) /\ n_cols c = 1%nat) /\
    (n_rows (X data) = 0%nat ->
     last_estimate uword_bits o = Throw index_out_of_bounds).
Proof.
  intros w junk data Hw o.
  split; [reflexivity|]. split; [reflexivity|]. split.
  - intros Hn Hfit. unfold last_estimate, uword_sub, o, Imp_OnlineOutput_of.
    unfold mat_init. cbn [estimates n_cols].
    rewrite Z.mod_small by lia.
    replace (Z.to_nat (Z.of_nat (n_rows (X data)) - 1))
      with (n_rows (X data) - 1)%nat by lia.
    unfold col. cbn [n_cols n_rows].
    replace (n_rows (X data) - 1 <? n_rows (X data))%nat with true
      by (symmetry; apply Nat.ltb_lt; lia).
    eexists. split; [reflexivity|]. split; reflexivity.
  - intros Hn. unfold last_estimate, col, o, Imp_OnlineOutput_of, mat_init.
    cbn [estimates n_cols]. rewrite Hn.
    destruct (_ <? 0)%nat eqn:E; [|reflexivity].
    apply Nat.ltb_lt in E. lia.
Qed.

Lemma constructed_output_last_estimate_witness :
  last_estimate 32
    (Imp_OnlineOutput_of (fun _ _ => 0) (Dataset (Mat 0 3 []) (Mat 0 1 [])))
  = Throw index_out_of_bounds.
Proof.
  exact (proj2 (proj2 (proj2
           (constructed_output_last_estimate 32 (fun _ _ => 0)
              (Dataset (Mat 0 3 []) (Mat 0 1 [])) eq_refl))) eq_refl).
Defined.
